(** * Bluetooth host settings: key codec, restore handler and commit handler

    A shallow embedding of [subsys/bluetooth/host/settings.c]
    (the variant built without [CONFIG_BT_SETTINGS_USE_PRINTK]).

    Conventions.
    - A [char] or [uint8_t] is a [Z] in [0, 256); arithmetic on it is
      reduced modulo 256 where the C code stores the result in a byte.
    - A [size_t] that indexes or measures an object is a [nat]: every
      subtraction [path_size - len] of the source is guarded by
      [len < path_size], so no wrap-around is lost.
    - Memory is a [list Z].  A [char *] into it is the list together with
      an offset; [&path[len]] is [skipn len path] for reads.  The list
      given to the encoder is the destination buffer followed by whatever
      memory lies behind it, so that a write past the buffer is visible.
    - A [const char *] argument is the list of its characters; the
      terminating NUL is implicit at the end of the list (and a 0 inside
      the list ends the string early, as in C). *)

From Stdlib Require Import String Ascii ZArith List Bool Lia.
Import ListNotations.
Open Scope Z_scope.

(** ** Characters and string literals *)

Definition char_of (c : ascii) : Z := Z.of_N (N_of_ascii c).

(** The value stored when an integer is assigned to a [char] or a
    [uint8_t]. *)
Definition to_uint8 (x : Z) : Z := x mod 256.

(** The characters of a string literal, without its terminator. *)
Definition cstr (s : string) : list Z := map char_of (list_ascii_of_string s).

Arguments char_of c%_char.
Arguments cstr s%_string.

(** ** <errno.h> *)

Definition ENOENT : Z := 2.
Definition EINVAL : Z := 22.

(** ** Memory and the libc string functions used by the source *)

(** [m[i]]; a byte outside the modelled memory reads as NUL. *)
Definition load (m : list Z) (i : nat) : Z := nth i m 0.

(** [m[i] = v]. *)
Fixpoint store (m : list Z) (i : nat) (v : Z) : list Z :=
  match m, i with
  | [], _ => []
  | _ :: t, O => v :: t
  | x :: t, S j => x :: store t j v
  end.

(** [strlen(s)]: the number of characters before the first NUL. *)
Fixpoint strlen (s : list Z) : nat :=
  match s with
  | [] => O
  | c :: t => if c =? 0 then O else S (strlen t)
  end.

(** The C string held at the start of [m]. *)
Definition c_str (m : list Z) : list Z := firstn (strlen m) m.

(** [strcpy(&m[off], src)]: the characters of [src] and the terminator. *)
Fixpoint strcpy (m : list Z) (off : nat) (src : list Z) : list Z :=
  match src with
  | [] => store m off 0
  | c :: src' => if c =? 0 then store m off 0
                 else strcpy (store m off c) (S off) src'
  end.

(** [strncpy(&m[off], src, n)]: exactly [n] bytes are written, the
    characters of [src] and then NUL padding; no terminator is written
    when [src] has [n] characters or more. *)
Fixpoint strncpy (m : list Z) (off : nat) (src : list Z) (n : nat) : list Z :=
  match n with
  | O => m
  | S n' =>
      let c := hd 0 src in
      strncpy (store m off c) (S off) (if c =? 0 then [] else tl src) n'
  end.

(** [strncmp(s1, s2, n)]. *)
Fixpoint strncmp (s1 s2 : list Z) (n : nat) : Z :=
  match n with
  | O => 0
  | S n' =>
      let c1 := hd 0 s1 in
      let c2 := hd 0 s2 in
      if c1 =? c2
      then (if c1 =? 0 then 0 else strncmp (tl s1) (tl s2) n')
      else c1 - c2
  end.

(** ** Helpers of the repository that live outside this file *)

(** Modelled from the spec: [hex2char] of lib/os/hex.c, used by [bin2hex].
    The address bytes are "rendered as 12 lowercase hex characters": a
    nibble below 10 is a decimal digit, one below 16 a letter [a]-[f],
    anything else has no hex character. *)
Definition hex2char (x : Z) : option Z :=
  if x <=? 9 then Some (to_uint8 (x + char_of "0"))
  else if x <=? 15 then Some (to_uint8 (x - 10 + char_of "a"))
  else None.

(** Modelled from the spec: [char2hex] of lib/os/hex.c, used by [hex2bin]:
    the value of a hex character, in either case. *)
Definition char2hex (c : Z) : option Z :=
  if (char_of "0" <=? c) && (c <=? char_of "9") then Some (c - char_of "0")
  else if (char_of "a" <=? c) && (c <=? char_of "f") then Some (c - char_of "a" + 10)
  else if (char_of "A" <=? c) && (c <=? char_of "F") then Some (c - char_of "A" + 10)
  else None.

(** The conversion loop of [bin2hex]: two characters per byte, written at
    [&m[off]]; [None] when a nibble has no hex character. *)
Fixpoint bin2hex_loop (buf : list Z) (m : list Z) (off : nat) : option (list Z) :=
  match buf with
  | [] => Some m
  | b :: buf' =>
      match hex2char (Z.shiftr b 4), hex2char (Z.land b 15) with
      | Some hi, Some lo =>
          bin2hex_loop buf' (store (store m off hi) (S off) lo) (S (S off))
      | _, _ => None
      end
  end.

(** Modelled from the spec: [bin2hex(buf, buflen, &m[off], hexlen)] of
    lib/os/hex.c, with [buflen] the length of [buf].  It renders each byte
    as two lowercase hex characters, most significant nibble first,
    terminates the text and returns the number of hex characters.  The
    spec does not describe the case of a destination shorter than
    [2 * buflen + 1]; there the function of the repository writes nothing
    and returns 0, which is what the call site relies on when it adds the
    result to [len]. *)
Definition bin2hex (buf : list Z) (m : list Z) (off : nat) (hexlen : nat)
  : list Z * nat :=
  if (hexlen <? 2 * length buf + 1)%nat then (m, O)
  else match bin2hex_loop buf m off with
       | Some m' => (store m' (off + 2 * length buf) 0, (2 * length buf)%nat)
       | None => (m, O)
       end.

(** The conversion loop of [hex2bin] over [n] pairs of characters: byte
    [i] receives the first character's value shifted left by four and is
    then incremented by the second's.  The flag is [false] when a character
    is not a hex digit; the bytes written before that stay written. *)
Fixpoint hex2bin_loop (n : nat) (hex : list Z) (buf : list Z) (off : nat)
  : list Z * bool :=
  match n with
  | O => (buf, true)
  | S n' =>
      match char2hex (load hex 0) with
      | None => (buf, false)
      | Some hi =>
          let buf1 := store buf off (to_uint8 (Z.shiftl hi 4)) in
          match char2hex (load hex 1) with
          | None => (buf1, false)
          | Some lo =>
              let buf2 := store buf1 off (to_uint8 (load buf1 off + lo)) in
              hex2bin_loop n' (skipn 2 hex) buf2 (S off)
          end
      end
  end.

(** Modelled from the spec: [hex2bin(hex, hexlen, &buf[off], buflen)] of
    lib/os/hex.c: "each pair of hex characters converts to one byte".  It
    returns the number of bytes written, 0 on a short destination or a
    character that is not a hex digit.  An odd [hexlen] gets a leading
    zero nibble. *)
Definition hex2bin (hex : list Z) (hexlen : nat) (buf : list Z) (off : nat)
  (buflen : nat) : list Z * nat :=
  if (buflen <? hexlen / 2 + hexlen mod 2)%nat then (buf, O)
  else if (hexlen mod 2 =? 1)%nat then
    match char2hex (load hex 0) with
    | None => (buf, O)
    | Some d =>
        match hex2bin_loop (hexlen / 2) (skipn 1 hex) (store buf off d) (S off) with
        | (buf', true) => (buf', (hexlen / 2 + hexlen mod 2)%nat)
        | (buf', false) => (buf', O)
        end
    end
  else
    match hex2bin_loop (hexlen / 2) hex buf off with
    | (buf', true) => (buf', (hexlen / 2 + hexlen mod 2)%nat)
    | (buf', false) => (buf', O)
    end.

(** Modelled from the spec: [settings_name_next(name, &next)] of
    subsys/settings, the length of the first path segment of [name]: the
    characters before the first ["/"] separator, or all of them when
    there is none. *)
Fixpoint settings_name_next (name : list Z) : nat :=
  match name with
  | [] => O
  | c :: t =>
      if (c =? 0) || (c =? char_of "/") then O else S (settings_name_next t)
  end.

(** ** <zephyr/bluetooth/addr.h> *)

Definition BT_ADDR_LE_PUBLIC : Z := 0.
Definition BT_ADDR_LE_RANDOM : Z := 1.

(** [bt_addr_t]: the six address bytes, least significant first. *)
Record bt_addr_t := { val : list Z }.

(** [bt_addr_le_t]: the address kind and the address. *)
Record bt_addr_le_t := { type : Z; a : bt_addr_t }.

(** ** The key codec *)

(** The loop [for (int8_t i = 5; i >= 0 && len < path_size; i--)] of
    [bt_settings_encode_key], entered with [k = i + 1]. *)
Fixpoint encode_addr (k : nat) (addr : bt_addr_le_t) (path : list Z)
  (path_size len : nat) : list Z * nat :=
  match k with
  | O => (path, len)
  | S i =>
      if (len <? path_size)%nat then
        let (path', n) :=
          bin2hex [load (val (a addr)) i] path len (path_size - len) in
        encode_addr i addr path' path_size (len + n)
      else (path, len)
  end.

(** [bt_settings_encode_key(path, path_size, subsys, addr, key)]; a NULL
    [key] is [None].  The result is the memory after the call. *)
Definition bt_settings_encode_key (path : list Z) (path_size : nat)
  (subsys : list Z) (addr : bt_addr_le_t) (key : option (list Z)) : list Z :=
  let len := 3%nat in
  if (len <? path_size)%nat then
    let path := strcpy path 0 (cstr "bt/") in
    let path := strncpy path len subsys (path_size - len) in
    let len := strlen path in
    let (path, len) :=
      if (len <? path_size)%nat
      then (store path len (char_of "/"), S len)
      else (path, len) in
    let (path, len) := encode_addr 6 addr path path_size len in
    let (path, len) :=
      if (len <? path_size)%nat
      then (store path len (to_uint8 (char_of "0" + type addr)), S len)
      else (path, len) in
    let (path, len) :=
      match key with
      | Some key =>
          if (len <? path_size)%nat then
            let path := store path len (char_of "/") in
            let len := S len in
            let path := strncpy path len key (path_size - len) in
            (path, (len + strlen (skipn len path))%nat)
          else (path, len)
      | None => (path, len)
      end in
    if (path_size <=? len)%nat
    then store path (path_size - 1) 0
    else path
  else if (0 <? path_size)%nat then store path 0 0
  else path.

(** The loop [for (uint8_t i = 0; i < 6; i++)] of [bt_settings_decode_key]
    over the address bytes [v], with [n = 6 - i] iterations left; the
    result of [hex2bin] is not looked at. *)
Fixpoint decode_addr (n i : nat) (key : list Z) (v : list Z) : list Z :=
  match n with
  | O => v
  | S n' =>
      let (v', _) := hex2bin (skipn (i * 2) key) 2 v (5 - i) 1 in
      decode_addr n' (S i) key v'
  end.

(** [bt_settings_decode_key(key, addr)]: the return value and the address
    record after the call. *)
Definition bt_settings_decode_key (key : list Z) (addr : bt_addr_le_t)
  : Z * bt_addr_le_t :=
  if negb (settings_name_next key =? 13)%nat then (- EINVAL, addr)
  else
    let decoded t :=
      (0, {| type := t; a := {| val := decode_addr 6 0 key (val (a addr)) |} |}) in
    if load key 12 =? char_of "0" then decoded BT_ADDR_LE_PUBLIC
    else if load key 12 =? char_of "1" then decoded BT_ADDR_LE_RANDOM
    else (- EINVAL, addr).

(** ** The key grammar as the specification words it *)

(** One lowercase hex character. *)
Definition spec_hex_digit (n : Z) : Z :=
  nth (Z.to_nat n) (cstr "0123456789abcdef") 0.

(** [<addr-hex-reversed>]: byte index 5 first, byte index 0 last, two
    characters each. *)
Definition spec_addr_hex (v : list Z) : list Z :=
  flat_map (fun b => [spec_hex_digit (b / 16); spec_hex_digit (b mod 16)]) (rev v).

(** [<addr-hex-reversed> <type-digit>]. *)
Definition spec_addr_text (addr : bt_addr_le_t) : list Z :=
  spec_addr_hex (val (a addr)) ++ [char_of "0" + type addr].

(** ["bt/" <subsys> "/" <addr-hex-reversed> <type-digit> ["/" <key>]]. *)
Definition spec_key_text (subsys : list Z) (addr : bt_addr_le_t)
  (key : option (list Z)) : list Z :=
  cstr "bt/" ++ c_str subsys ++ cstr "/" ++ spec_addr_text addr
  ++ match key with
     | Some k => cstr "/" ++ c_str k
     | None => []
     end.

(** ** The device state of the host stack *)

(** What the source takes from the target and from headers that are not
    part of this file: the width of [size_t] and [ssize_t], the size of
    one [bt_addr_le_t] in memory, the bit numbers of the [BT_DEV_*] flags
    of hci_core.h, and the Kconfig options the handlers are compiled
    under. *)
Class Target := {
  SIZE_WIDTH : Z;
  SIZEOF_BT_ADDR_LE : nat;
  BT_DEV_ENABLE : nat;
  BT_DEV_READY : nat;
  BT_DEV_PRESET_ID : nat;
  BT_DEV_STORE_ID : nat;
  CONFIG_BT_DEVICE_NAME_DYNAMIC : bool;
  CONFIG_BT_DEVICE_APPEARANCE_DYNAMIC : bool;
  CONFIG_BT_PRIVACY : bool;
  CONFIG_BT_DEVICE_NAME : list Z
}.

(** [struct bt_dev], the fields this file touches.  Arrays and the
    appearance are kept as their bytes in memory, which is how the value
    reader and [memset] see them; [sizeof] of a field is the length of its
    byte list.  [id_count] is a [uint8_t]. *)
Module bt_dev.
Record t := {
  flags : Z;
  id_addr : list Z;
  id_count : N;
  name : list Z;
  appearance : list Z;
  irk : list Z
}.

Definition set_flags (d : t) (v : Z) : t :=
  {| flags := v; id_addr := id_addr d; id_count := id_count d;
     name := name d; appearance := appearance d; irk := irk d |}.
Definition set_id_addr (d : t) (v : list Z) : t :=
  {| flags := flags d; id_addr := v; id_count := id_count d;
     name := name d; appearance := appearance d; irk := irk d |}.
Definition set_id_count (d : t) (v : N) : t :=
  {| flags := flags d; id_addr := id_addr d; id_count := v;
     name := name d; appearance := appearance d; irk := irk d |}.
Definition set_name (d : t) (v : list Z) : t :=
  {| flags := flags d; id_addr := id_addr d; id_count := id_count d;
     name := v; appearance := appearance d; irk := irk d |}.
Definition set_appearance (d : t) (v : list Z) : t :=
  {| flags := flags d; id_addr := id_addr d; id_count := id_count d;
     name := name d; appearance := v; irk := irk d |}.
Definition set_irk (d : t) (v : list Z) : t :=
  {| flags := flags d; id_addr := id_addr d; id_count := id_count d;
     name := name d; appearance := appearance d; irk := v |}.
End bt_dev.

(** The collaborators of the commit handler in the host stack: each takes
    the device state and gives back its [int] result and the state it
    leaves. *)
Class HciCore := {
  bt_set_name : list Z -> bt_dev.t -> Z * bt_dev.t;
  bt_setup_public_id_addr : bt_dev.t -> Z * bt_dev.t;
  bt_setup_random_id_addr : bt_dev.t -> Z * bt_dev.t
}.

(** A call that leaves this file. *)
Inductive call :=
| Call_read_cb (len : nat)
| Call_bt_set_name
| Call_bt_setup_public_id_addr
| Call_bt_setup_random_id_addr
| Call_bt_finalize_init
| Call_k_work_submit.

(** What the handlers act on: the device state, whether [save_id_work] is
    pending on the work queue, and the calls made so far, latest first. *)
Record world := {
  dev : bt_dev.t;
  save_id_work : bool;
  calls : list call
}.

Definition set_dev (w : world) (d : bt_dev.t) : world :=
  {| dev := d; save_id_work := save_id_work w; calls := calls w |}.

Definition called (c : call) (w : world) : world :=
  {| dev := dev w; save_id_work := save_id_work w; calls := c :: calls w |}.

(** [atomic_test_bit], [atomic_set_bit] and [atomic_test_and_clear_bit] on
    the flag word. *)
Definition atomic_test_bit (target : Z) (bit : nat) : bool :=
  Z.testbit target (Z.of_nat bit).

Definition atomic_set_bit (target : Z) (bit : nat) : Z :=
  Z.setbit target (Z.of_nat bit).

Definition atomic_test_and_clear_bit (target : Z) (bit : nat) : bool * Z :=
  (Z.testbit target (Z.of_nat bit), Z.clearbit target (Z.of_nat bit)).

(** The value reader handed to the restore handler: from its argument, the
    destination bytes and the number of bytes asked for, the [ssize_t]
    result and the destination as the reader leaves it. *)
Definition settings_read_cb (A : Type) : Type :=
  A -> list Z -> nat -> Z * list Z.

Section Host.
Context {target : Target} {hci : HciCore}.

(** A signed [ssize_t] converted to [size_t], as the comparison with and
    the division by a [sizeof] convert it. *)
Definition to_size_t (x : Z) : Z := x mod 2 ^ SIZE_WIDTH.

(** ** The restore handler *)

(** [set_setting(name, len_rd, read_cb, cb_arg)]; a NULL [name] is [None].
    A branch under [#if defined(CONFIG_...)] is guarded by that option. *)
Definition set_setting {A : Type} (name : option (list Z)) (len_rd : nat)
  (read_cb : settings_read_cb A) (cb_arg : A) (w : world) : Z * world :=
  let d := dev w in
  if negb (atomic_test_bit (bt_dev.flags d) BT_DEV_ENABLE) then (0, w)
  else
    match name with
    | None => (- ENOENT, w)
    | Some name =>
        let len := settings_name_next name in
        if strncmp name (cstr "id") len =? 0 then
          if atomic_test_bit (bt_dev.flags d) BT_DEV_PRESET_ID then (0, w)
          else
            let size := length (bt_dev.id_addr d) in
            let (len, buf) := read_cb cb_arg (bt_dev.id_addr d) size in
            let w := called (Call_read_cb size) w in
            if to_size_t len <? Z.of_nat SIZEOF_BT_ADDR_LE then
              (0, set_dev w (bt_dev.set_id_count
                               (bt_dev.set_id_addr d (repeat 0 size)) 0%N))
            else
              let count := to_size_t len / Z.of_nat SIZEOF_BT_ADDR_LE in
              (0, set_dev w (bt_dev.set_id_count
                               (bt_dev.set_id_addr d buf)
                               (Z.to_N (to_uint8 count))))
        else if CONFIG_BT_DEVICE_NAME_DYNAMIC
                && (strncmp name (cstr "name") len =? 0) then
          let size := (length (bt_dev.name d) - 1)%nat in
          let (len, buf) := read_cb cb_arg (bt_dev.name d) size in
          let w := called (Call_read_cb size) w in
          if len <? 0 then (0, set_dev w (bt_dev.set_name d buf))
          else (0, set_dev w (bt_dev.set_name d (store buf (Z.to_nat len) 0)))
        else if CONFIG_BT_DEVICE_APPEARANCE_DYNAMIC
                && (strncmp name (cstr "appearance") len =? 0) then
          let size := length (bt_dev.appearance d) in
          if negb (len_rd =? size)%nat then (- EINVAL, w)
          else
            let (len, buf) := read_cb cb_arg (bt_dev.appearance d) size in
            let w := set_dev (called (Call_read_cb size) w)
                             (bt_dev.set_appearance d buf) in
            if len <? 0 then (len, w) else (0, w)
        else if CONFIG_BT_PRIVACY
                && (strncmp name (cstr "irk") len =? 0) then
          let size := length (bt_dev.irk d) in
          let (len, buf) := read_cb cb_arg (bt_dev.irk d) size in
          let w := called (Call_read_cb size) w in
          if to_size_t len <? 16 then
            if len <? 0 then (0, set_dev w (bt_dev.set_irk d buf))
            else (0, set_dev w (bt_dev.set_irk d (repeat 0 size)))
          else (0, set_dev w (bt_dev.set_irk d buf))
        else (- ENOENT, w)
    end.

(** Modelled from the spec: the load pass of the settings store, which is
    not part of this file.  It "enumerates persisted keys under a fixed
    root namespace, invoking the Restore Dispatcher with (suffix-name,
    length, value-reader) for each"; "restore-phase errors never abort the
    overall load pass (each key is independent)".  The result lists the
    handler's return value for each key, in order. *)
Record entry (A : Type) := {
  entry_name : list Z;
  entry_len : nat;
  entry_read_cb : settings_read_cb A;
  entry_cb_arg : A
}.
Arguments entry_name {A} _.
Arguments entry_len {A} _.
Arguments entry_read_cb {A} _.
Arguments entry_cb_arg {A} _.

Fixpoint settings_load {A : Type} (entries : list (entry A)) (w : world)
  : list Z * world :=
  match entries with
  | [] => ([], w)
  | e :: rest =>
      let (rc, w1) :=
        set_setting (Some (entry_name e)) (entry_len e)
                    (entry_read_cb e) (entry_cb_arg e) w in
      let (rcs, w2) := settings_load rest w1 in
      (rc :: rcs, w2)
  end.

(** ** The commit handler *)

(** Modelled from the spec: [bt_finalize_init] of hci_core.c, the
    "one-time finalization" run "if the stack is not yet marked ready": it
    marks the stack ready. *)
Definition bt_finalize_init (d : bt_dev.t) : bt_dev.t :=
  bt_dev.set_flags d (atomic_set_bit (bt_dev.flags d) BT_DEV_READY).

(** [bt_settings_save_id()]: [k_work_submit(&save_id_work)].  Submitting a
    work item that is already pending leaves it pending once. *)
Definition bt_settings_save_id (w : world) : world :=
  {| dev := dev w; save_id_work := true;
     calls := Call_k_work_submit :: calls w |}.

(** A collaborator called on the device state, its call recorded. *)
Definition invoke (c : call) (f : bt_dev.t -> Z * bt_dev.t) (w : world)
  : Z * world :=
  let (err, d) := f (dev w) in (err, set_dev (called c w) d).

(** [commit_settings()], after the test of [BT_DEV_ENABLE], in the order of the source:
    each function below is the rest of the body after one step. *)
Definition commit_store_id (w : world) : Z * world :=
  let (stored, flags') :=
    atomic_test_and_clear_bit (bt_dev.flags (dev w)) BT_DEV_STORE_ID in
  let w := set_dev w (bt_dev.set_flags (dev w) flags') in
  if stored then (0, bt_settings_save_id w) else (0, w).

Definition commit_finalize (w : world) : Z * world :=
  if negb (atomic_test_bit (bt_dev.flags (dev w)) BT_DEV_READY)
  then commit_store_id
         (set_dev (called Call_bt_finalize_init w) (bt_finalize_init (dev w)))
  else commit_store_id w.

Definition commit_random_id (w : world) : Z * world :=
  if (bt_dev.id_count (dev w) =? 0)%N then
    let (err, w1) :=
      invoke Call_bt_setup_random_id_addr bt_setup_random_id_addr w in
    if negb (err =? 0) then (err, w1) else commit_finalize w1
  else commit_finalize w.

Definition commit_public_id (w : world) : Z * world :=
  if (bt_dev.id_count (dev w) =? 0)%N then
    let (err, w1) :=
      invoke Call_bt_setup_public_id_addr bt_setup_public_id_addr w in
    if negb (err =? 0) then (err, w1) else commit_random_id w1
  else commit_random_id w.

Definition commit_name (w : world) : world :=
  if CONFIG_BT_DEVICE_NAME_DYNAMIC && (load (bt_dev.name (dev w)) 0 =? 0)
  then snd (invoke Call_bt_set_name (bt_set_name CONFIG_BT_DEVICE_NAME) w)
  else w.

Definition commit_settings (w : world) : Z * world :=
  if negb (atomic_test_bit (bt_dev.flags (dev w)) BT_DEV_ENABLE) then (0, w)
  else commit_public_id (commit_name w).

End Host.

(** ** A concrete target, used to run the handlers on examples *)

(** A 32-bit target with packed 7-byte address records and every optional
    field compiled in. *)
Definition target_ilp32 : Target :=
  {| SIZE_WIDTH := 32;
     SIZEOF_BT_ADDR_LE := 7;
     BT_DEV_ENABLE := 0;
     BT_DEV_READY := 2;
     BT_DEV_PRESET_ID := 3;
     BT_DEV_STORE_ID := 16;
     CONFIG_BT_DEVICE_NAME_DYNAMIC := true;
     CONFIG_BT_DEVICE_APPEARANCE_DYNAMIC := true;
     CONFIG_BT_PRIVACY := true;
     CONFIG_BT_DEVICE_NAME := cstr "Zephyr" |}.

(** A host stack whose controller has no public address and whose random
    identity generation succeeds, marking the identity for storage. *)
Definition hci_random_only : HciCore :=
  {| bt_set_name := fun n d => (0, bt_dev.set_name d (n ++ [0]));
     bt_setup_public_id_addr := fun d => (0, d);
     bt_setup_random_id_addr := fun d =>
       (0, bt_dev.set_id_count
             (bt_dev.set_flags d (Z.setbit (bt_dev.flags d) 16)) 1%N) |}.

(** An enabled device with room for two identities and none restored. *)
Definition dev_enabled : bt_dev.t :=
  {| bt_dev.flags := 1;
     bt_dev.id_addr := repeat 0 14;
     bt_dev.id_count := 0%N;
     bt_dev.name := repeat 0 8;
     bt_dev.appearance := [0; 0];
     bt_dev.irk := repeat 0 32 |}.

(** The same device before [bt_enable()]. *)
Definition dev_disabled : bt_dev.t := bt_dev.set_flags dev_enabled 0.

Definition world_of (d : bt_dev.t) : world :=
  {| dev := d; save_id_work := false; calls := [] |}.

(** A value reader bound to the persisted bytes [data]: it copies at most
    the number of bytes asked for and returns how many. *)
Definition read_stored : settings_read_cb (list Z) :=
  fun data buf len =>
    let n := Nat.min (length data) len in
    (Z.of_nat n, firstn n data ++ skipn n buf).

(** A value reader whose storage fails with [-EIO]. *)
Definition read_failing : settings_read_cb unit :=
  fun _ buf _ => (-5, buf).

(** ** Notions used in the statements and proofs *)

(** The bytes [bs] laid over [m] from offset [off] on. *)
Definition overlay (m : list Z) (off : nat) (bs : list Z) : list Z :=
  firstn off m ++ bs ++ skipn (off + length bs) m.

(** No NUL among the characters. *)
Definition no_nul (s : list Z) : Prop := Forall (fun c => c <> 0) s.

(** A value of a [uint8_t]. *)
Definition is_byte (b : Z) : Prop := 0 <= b < 256.

(** A character that ends neither the string nor the path segment. *)
Definition plain (c : Z) : Prop := c <> 0 /\ c <> char_of "/".

(** What the encoder maintains on the buffer [path] of [path_size] bytes
    inside the memory [m], with [len] its running length: the memory keeps
    its size, the bytes behind the buffer are untouched, and as long as
    [len] is inside the buffer the last byte of the buffer is NUL. *)
Definition encoding (m : list Z) (path_size : nat) (path : list Z)
  (len : nat) : Prop :=
  length path = length m
  /\ skipn path_size path = skipn path_size m
  /\ ((len < path_size)%nat -> load path (path_size - 1) = 0).

(** ** The encoder built with [CONFIG_BT_SETTINGS_USE_PRINTK] *)

(** The characters [%02x] prints for a [uint8_t]: two lowercase hex
    digits. *)
Definition fmt_02x (b : Z) : list Z :=
  [spec_hex_digit (b / 16); spec_hex_digit (b mod 16)].

(** The characters [%u] prints: the decimal digits of [n], most
    significant first, for [n] of at most [fuel] digits. *)
Fixpoint fmt_u_digits (fuel : nat) (n : Z) (acc : list Z) : list Z :=
  match fuel with
  | O => acc
  | S fuel' =>
      let acc' := (char_of "0" + n mod 10) :: acc in
      if n / 10 =? 0 then acc' else fmt_u_digits fuel' (n / 10) acc'
  end.

Definition fmt_u (n : Z) : list Z := fmt_u_digits 10 n [].

(** [m[off], m[off + 1], ... = cs]. *)
Fixpoint store_chars (m : list Z) (off : nat) (cs : list Z) : list Z :=
  match cs with
  | [] => m
  | c :: cs' => store_chars (store m off c) (S off) cs'
  end.

(** [snprintk(str, size, fmt, ...)] of lib/os/printk.c, which is not part
    of this file, given the text the format expands to: as for
    [snprintf], at most [size - 1] characters of the text are stored and
    then the terminator; nothing is stored when [size] is 0. *)
Definition snprintk (str : list Z) (size : nat) (text : list Z) : list Z :=
  match size with
  | O => str
  | S room =>
      store (store_chars str 0 (firstn room text))
            (Nat.min room (length text)) 0
  end.

(** The text of ["bt/%s/%02x%02x%02x%02x%02x%02x%u"] for [subsys],
    [val[5]] ... [val[0]] and [type]. *)
Definition printk_key_text (subsys : list Z) (addr : bt_addr_le_t) : list Z :=
  cstr "bt/" ++ c_str subsys ++ cstr "/"
  ++ fmt_02x (load (val (a addr)) 5) ++ fmt_02x (load (val (a addr)) 4)
  ++ fmt_02x (load (val (a addr)) 3) ++ fmt_02x (load (val (a addr)) 2)
  ++ fmt_02x (load (val (a addr)) 1) ++ fmt_02x (load (val (a addr)) 0)
  ++ fmt_u (type addr).

(** [bt_settings_encode_key] as compiled with
    [CONFIG_BT_SETTINGS_USE_PRINTK]; with a key the format ends in
    ["/%s"]. *)
Definition bt_settings_encode_key_printk (path : list Z) (path_size : nat)
  (subsys : list Z) (addr : bt_addr_le_t) (key : option (list Z)) : list Z :=
  match key with
  | Some key =>
      snprintk path path_size
        (printk_key_text subsys addr ++ cstr "/" ++ c_str key)
  | None => snprintk path path_size (printk_key_text subsys addr)
  end.

(** ** The deferred save of the identities *)

(** A call of [settings_save_one(name, value, val_len)]: the key and the
    [val_len] bytes at [value]. *)
Record save_one := { save_name : list Z; save_value : list Z }.

Section Save.
Context {target : Target}.

(** [ID_DATA_LEN(array)] for an array whose elements have [elem] bytes. *)
Definition ID_DATA_LEN (d : bt_dev.t) (elem : nat) : nat :=
  (N.to_nat (bt_dev.id_count d) * elem)%nat.

(** [save_id(work)]: the calls of [settings_save_one] it makes, in order.
    The result of each call is only logged, so the second call is made
    whatever the first returns.  The bytes handed over are those of the
    array; the model does not follow a length that runs past the array
    into the fields behind it. *)
Definition save_id (d : bt_dev.t) : list save_one :=
  {| save_name := cstr "bt/id";
     save_value := firstn (ID_DATA_LEN d SIZEOF_BT_ADDR_LE)
                          (bt_dev.id_addr d) |}
  :: (if CONFIG_BT_PRIVACY
      then [{| save_name := cstr "bt/irk";
               save_value := firstn (ID_DATA_LEN d 16) (bt_dev.irk d) |}]
      else []).

End Save.

(** ** A state on which the commit handler has nothing to do *)

Section Settled.
Context {target : Target}.

(** A state that needs nothing from a commit: the stack is enabled and
    ready, there is an identity, nothing is marked for storage, and the
    name (when it is dynamic) is not empty. *)
Definition settled (w : world) : Prop :=
  atomic_test_bit (bt_dev.flags (dev w)) BT_DEV_ENABLE = true
  /\ atomic_test_bit (bt_dev.flags (dev w)) BT_DEV_READY = true
  /\ atomic_test_bit (bt_dev.flags (dev w)) BT_DEV_STORE_ID = false
  /\ bt_dev.id_count (dev w) <> 0%N
  /\ (CONFIG_BT_DEVICE_NAME_DYNAMIC = false
      \/ load (bt_dev.name (dev w)) 0 <> 0).

End Settled.

(** What a value reader bound to the stored bytes [data] does: it copies
    as many of them as asked for, at most all, to the start of the
    destination and returns their number. *)
Definition reads_stored {A : Type} (read_cb : settings_read_cb A)
  (cb_arg : A) (data : list Z) : Prop :=
  forall (buf : list Z) (len : nat),
    read_cb cb_arg buf len
    = (Z.of_nat (Nat.min (length data) len),
       firstn (Nat.min (length data) len) data
       ++ skipn (Nat.min (length data) len) buf).

(** The names the restore handler knows. *)
Definition known_names : list (list Z) :=
  [cstr "id"; cstr "name"; cstr "appearance"; cstr "irk"].

(** ** Load passes that may give up *)

Section LoadUntil.
Context {target : Target}.

(** Modelled from the spec: the load pass of the settings store, which is
    not part of this file, for a store that gives up at the first key
    whose handler result [stop] takes for fatal.  [settings_load] is the
    pass that never gives up. *)
Fixpoint settings_load_until {A : Type} (stop : Z -> bool)
  (entries : list (entry A)) (w : world) : list Z * world :=
  match entries with
  | [] => ([], w)
  | e :: rest =>
      let (rc, w1) :=
        set_setting (Some (@entry_name A e)) (@entry_len A e)
                    (@entry_read_cb A e) (@entry_cb_arg A e) w in
      if stop rc then ([rc], w1)
      else
        let (rcs, w2) := settings_load_until stop rest w1 in
        (rc :: rcs, w2)
  end.

End LoadUntil.

(** A value reader that stores three bytes, "XYZ", and then fails with
    [-EIO]. *)
Definition read_partial_failing : settings_read_cb unit :=
  fun _ buf _ => (-5, [88; 89; 90] ++ skipn 3 buf).

(** ** More concrete states *)

(** An enabled device with one identity, a name and two keys. *)
Definition dev_with_identity : bt_dev.t :=
  {| bt_dev.flags := 1;
     bt_dev.id_addr := [1; 17; 34; 51; 68; 85; 102] ++ repeat 0 7;
     bt_dev.id_count := 1%N;
     bt_dev.name := cstr "Zephyr" ++ repeat 0 2;
     bt_dev.appearance := [0; 0];
     bt_dev.irk := map Z.of_nat (seq 1 32) |}.


(** The enabled device with identities preset before the load. *)
Definition dev_preset_id : bt_dev.t :=
  bt_dev.set_flags dev_enabled (Z.setbit 1 3).

(** * Memory lemmas *)

Lemma store_length : forall m i v, length (store m i v) = length m.
Proof.
  induction m as [| x m IH]; intros [| i] v; cbn; auto.
Qed.

Lemma store_overlay :
  forall m i v, (i < length m)%nat -> store m i v = overlay m i [v].
Proof.
  unfold overlay.
  induction m as [| x m IH]; intros [| i] v Hi; cbn in *; try lia.
  - reflexivity.
  - f_equal. rewrite IH by lia. reflexivity.
Qed.

Lemma load_store_same :
  forall m i v, (i < length m)%nat -> load (store m i v) i = v.
Proof.
  unfold load.
  induction m as [| x m IH]; intros [| i] v Hi; cbn in *; try lia; auto.
  apply IH. lia.
Qed.

Lemma load_store_other :
  forall m i j v, i <> j -> load (store m i v) j = load m j.
Proof.
  unfold load.
  induction m as [| x m IH]; intros [| i] [| j] v Hij; cbn; auto; try lia.
Qed.

Lemma skipn_store :
  forall m i v n, (i < n)%nat -> skipn n (store m i v) = skipn n m.
Proof.
  induction m as [| x m IH]; intros [| i] v [| n] Hi; cbn; auto; try lia.
  apply IH. lia.
Qed.

Lemma overlay_length :
  forall m off bs,
    (off + length bs <= length m)%nat ->
    length (overlay m off bs) = length m.
Proof.
  intros m off bs H. unfold overlay.
  rewrite !length_app, length_firstn, length_skipn. lia.
Qed.

Lemma firstn_app_exact :
  forall (P X : list Z) n, n = length P -> firstn n (P ++ X) = P.
Proof.
  intros P X n ->.
  rewrite firstn_app, firstn_all, Nat.sub_diag. cbn. apply app_nil_r.
Qed.

Lemma skipn_app_plus :
  forall (P X : list Z) n k,
    n = (length P + k)%nat -> skipn n (P ++ X) = skipn k X.
Proof.
  intros P X n k ->.
  rewrite skipn_app, skipn_all2 by lia. cbn [app]. f_equal. lia.
Qed.

Lemma overlay_app :
  forall P Q R bs,
    length bs = length Q ->
    overlay (P ++ Q ++ R) (length P) bs = P ++ bs ++ R.
Proof.
  intros P Q R bs H. unfold overlay.
  rewrite firstn_app_exact by reflexivity. do 2 f_equal.
  rewrite (skipn_app_plus P _ _ (length bs)) by reflexivity.
  rewrite (skipn_app_plus Q _ _ 0) by lia. reflexivity.
Qed.

Lemma overlay_overlay :
  forall m off bs cs,
    (off + length bs <= length m)%nat ->
    overlay (overlay m off bs) (off + length bs) cs = overlay m off (bs ++ cs).
Proof.
  intros m off bs cs H.
  assert (Hf : length (firstn off m) = off) by (rewrite length_firstn; lia).
  unfold overlay. rewrite length_app, <- !app_assoc.
  rewrite (app_assoc (firstn off m) bs).
  rewrite firstn_app_exact by (rewrite length_app; lia).
  rewrite <- app_assoc. do 3 f_equal.
  rewrite (skipn_app_plus _ _ _ (length cs)) by (rewrite length_app; lia).
  rewrite skipn_skipn. f_equal. lia.
Qed.

(** ** Strings in memory *)

Lemma strlen_le : forall s, (strlen s <= length s)%nat.
Proof.
  induction s as [| c s IH]; cbn; [lia |].
  destruct (c =? 0); cbn; lia.
Qed.

Lemma c_str_length : forall s, length (c_str s) = strlen s.
Proof.
  intros s. unfold c_str. rewrite length_firstn.
  pose proof (strlen_le s). lia.
Qed.

Lemma c_str_no_nul : forall s, no_nul (c_str s).
Proof.
  unfold c_str, no_nul.
  induction s as [| c s IH]; cbn; [constructor |].
  destruct (Z.eqb_spec c 0); cbn; constructor; auto.
Qed.

Lemma c_str_cons :
  forall c s, c <> 0 -> c_str (c :: s) = c :: c_str s.
Proof.
  intros c s Hc. unfold c_str. cbn.
  apply Z.eqb_neq in Hc. now rewrite Hc.
Qed.

Lemma c_str_hd_nul : forall s, hd 0 s = 0 -> c_str s = [].
Proof.
  intros [| c s]; cbn; [reflexivity |].
  intros ->. reflexivity.
Qed.

Lemma strlen_app_nul :
  forall P X, no_nul P -> strlen (P ++ 0 :: X) = length P.
Proof.
  induction P as [| c P IH]; intros X H; cbn; [reflexivity |].
  inversion H as [| ? ? Hc HP]; subst.
  apply Z.eqb_neq in Hc. rewrite Hc. f_equal. now apply IH.
Qed.

Lemma strlen_app_ge :
  forall P X, no_nul P -> (length P <= strlen (P ++ X))%nat.
Proof.
  induction P as [| c P IH]; intros X H; cbn; [lia |].
  inversion H as [| ? ? Hc HP]; subst.
  apply Z.eqb_neq in Hc. rewrite Hc.
  specialize (IH X HP). lia.
Qed.

Lemma c_str_app_nul :
  forall P X, no_nul P -> c_str (P ++ 0 :: X) = P.
Proof.
  intros P X H. unfold c_str. rewrite strlen_app_nul by assumption.
  rewrite firstn_app, firstn_all, Nat.sub_diag. cbn. apply app_nil_r.
Qed.

Lemma strlen_load_nul :
  forall m i, (i < length m)%nat -> load m i = 0 -> (strlen m <= i)%nat.
Proof.
  unfold load.
  induction m as [| c m IH]; intros [| i] Hi H; cbn in *; try lia.
  - subst c. cbn. lia.
  - destruct (c =? 0); [lia |]. specialize (IH i). lia.
Qed.

Lemma strlen_cons :
  forall c s, c <> 0 -> strlen (c :: s) = S (strlen s).
Proof.
  intros c s Hc. cbn. apply Z.eqb_neq in Hc. now rewrite Hc.
Qed.

Lemma strcpy_overlay :
  forall src m off,
    (off + strlen src < length m)%nat ->
    strcpy m off src = overlay m off (c_str src ++ [0]).
Proof.
  induction src as [| c src IH]; intros m off H.
  - cbn in H. apply store_overlay. lia.
  - cbn [strcpy]. destruct (Z.eqb_spec c 0) as [-> | Hc].
    + cbn in H. apply store_overlay. lia.
    + rewrite c_str_cons by assumption.
      rewrite strlen_cons in H by assumption.
      rewrite IH by (rewrite store_length; lia).
      rewrite store_overlay by lia.
      replace (S off) with (off + length [c])%nat by (cbn; lia).
      rewrite overlay_overlay by (cbn; lia). reflexivity.
Qed.

Lemma strncpy_overlay :
  forall n m off src,
    (off + n <= length m)%nat ->
    strncpy m off src n
    = overlay m off (firstn n (c_str src) ++ repeat 0 (n - strlen src)).
Proof.
  induction n as [| n IH]; intros m off src H.
  - cbn. unfold overlay. cbn. rewrite Nat.add_0_r.
    now rewrite firstn_skipn.
  - cbn [strncpy].
    rewrite IH by (rewrite store_length; lia).
    rewrite store_overlay by lia.
    replace (S off) with (off + length [hd 0%Z src])%nat by (cbn; lia).
    rewrite overlay_overlay by (cbn; lia). f_equal.
    destruct src as [| c src]; cbn [hd tl].
    + cbn. now rewrite Nat.sub_0_r, firstn_nil.
    + destruct (Z.eqb_spec c 0) as [-> | Hc].
      * cbn. now rewrite Nat.sub_0_r, firstn_nil.
      * rewrite c_str_cons, strlen_cons by assumption. reflexivity.
Qed.

(** ** Hex digits *)

Lemma nibble_forall :
  forall f : Z -> bool,
    forallb f (map Z.of_nat (seq 0 16)) = true ->
    forall n, 0 <= n < 16 -> f n = true.
Proof.
  intros f H n Hn. rewrite forallb_forall in H. apply H.
  apply in_map_iff. exists (Z.to_nat n). split; [lia |].
  apply in_seq. lia.
Qed.

Lemma hex2char_nibble :
  forall n, 0 <= n < 16 -> hex2char n = Some (spec_hex_digit n).
Proof.
  intros n Hn.
  pose proof (nibble_forall
    (fun n => match hex2char n with
              | Some c => c =? spec_hex_digit n
              | None => false
              end) eq_refl n Hn) as H.
  cbv beta in H. destruct (hex2char n); [| discriminate].
  apply Z.eqb_eq in H. now subst.
Qed.

Lemma char2hex_nibble :
  forall n, 0 <= n < 16 -> char2hex (spec_hex_digit n) = Some n.
Proof.
  intros n Hn.
  pose proof (nibble_forall
    (fun n => match char2hex (spec_hex_digit n) with
              | Some v => v =? n
              | None => false
              end) eq_refl n Hn) as H.
  cbv beta in H. destruct (char2hex (spec_hex_digit n)); [| discriminate].
  apply Z.eqb_eq in H. now subst.
Qed.

(** A hex digit is neither the terminator nor the path separator. *)
Lemma spec_hex_digit_plain :
  forall n, 0 <= n < 16 ->
    spec_hex_digit n <> 0 /\ spec_hex_digit n <> char_of "/".
Proof.
  intros n Hn.
  pose proof (nibble_forall
    (fun n => negb (spec_hex_digit n =? 0)
              && negb (spec_hex_digit n =? char_of "/")) eq_refl n Hn) as H.
  cbv beta in H. apply andb_true_iff in H. destruct H as [H1 H2].
  apply negb_true_iff in H1, H2.
  split; now apply Z.eqb_neq.
Qed.

Lemma byte_nibbles :
  forall b, is_byte b ->
    Z.shiftr b 4 = b / 16 /\ Z.land b 15 = b mod 16
    /\ 0 <= b / 16 < 16 /\ 0 <= b mod 16 < 16.
Proof.
  intros b Hb. unfold is_byte in Hb. repeat split.
  - now rewrite Z.shiftr_div_pow2 by lia.
  - change 15 with (Z.ones 4). now rewrite Z.land_ones by lia.
  - apply Z.div_pos; lia.
  - apply Z.div_lt_upper_bound; lia.
  - apply Z.mod_pos_bound; lia.
  - apply Z.mod_pos_bound; lia.
Qed.

Lemma byte_of_nibbles :
  forall b, is_byte b ->
    to_uint8 (Z.shiftl (b / 16) 4) = b / 16 * 16
    /\ to_uint8 (b / 16 * 16 + b mod 16) = b.
Proof.
  intros b Hb. unfold is_byte in Hb. unfold to_uint8.
  rewrite Z.shiftl_mul_pow2 by lia. change (2 ^ 4) with 16.
  assert (0 <= b / 16 < 16)
    by (split; [apply Z.div_pos | apply Z.div_lt_upper_bound]; lia).
  pose proof (Z.div_mod b 16 ltac:(lia)) as Hdm.
  pose proof (Z.mod_pos_bound b 16 ltac:(lia)).
  split.
  - apply Z.mod_small; lia.
  - replace (b / 16 * 16 + b mod 16) with b by lia.
    apply Z.mod_small; lia.
Qed.

(** ** Writing into the zeroed tail of a buffer *)

Lemma store_zone :
  forall P k R v,
    store (P ++ repeat 0 (S k) ++ R) (length P) v
    = (P ++ [v]) ++ repeat 0 k ++ R.
Proof.
  intros P k R v.
  rewrite store_overlay by (rewrite !length_app; cbn; lia).
  cbn [repeat]. change (0 :: repeat 0 k) with ([0] ++ repeat 0 k).
  rewrite <- (app_assoc [0]).
  rewrite overlay_app by reflexivity.
  now rewrite <- app_assoc.
Qed.

Lemma bin2hex_zone :
  forall b P k R,
    is_byte b -> (3 <= k)%nat ->
    bin2hex [b] (P ++ repeat 0 k ++ R) (length P) k
    = ((P ++ [spec_hex_digit (b / 16); spec_hex_digit (b mod 16)])
         ++ repeat 0 (k - 2) ++ R, 2%nat).
Proof.
  intros b P k R Hb Hk. unfold bin2hex. cbn [length Nat.mul Nat.add].
  assert (Hlt : (k <? 3)%nat = false) by (apply Nat.ltb_ge; lia).
  rewrite Hlt. cbn [bin2hex_loop].
  destruct (byte_nibbles b Hb) as (-> & -> & Hhi & Hlo).
  rewrite !hex2char_nibble by assumption.
  destruct k as [| [| [| k]]]; try lia.
  rewrite store_zone.
  replace (S (length P)) with (length (P ++ [spec_hex_digit (b / 16)]))
    by (rewrite length_app; cbn; lia).
  rewrite store_zone.
  replace (length P + 2)%nat
    with (length ((P ++ [spec_hex_digit (b / 16)])
                    ++ [spec_hex_digit (b mod 16)]))
    by (rewrite !length_app; cbn; lia).
  rewrite store_zone.
  cbn [Nat.sub repeat].
  rewrite <- !app_assoc. reflexivity.
Qed.

Lemma strncpy_zone :
  forall src P k R,
    (strlen src < k)%nat ->
    strncpy (P ++ repeat 0 k ++ R) (length P) src k
    = (P ++ c_str src) ++ repeat 0 (k - strlen src) ++ R.
Proof.
  intros src P k R H.
  rewrite strncpy_overlay by (rewrite !length_app, repeat_length; lia).
  rewrite overlay_app.
  - rewrite firstn_all2 by (rewrite c_str_length; lia).
    now rewrite <- !app_assoc.
  - rewrite length_app, length_firstn, !repeat_length, c_str_length. lia.
Qed.

Lemma firstn_S_nth :
  forall (l : list Z) n,
    (n < length l)%nat -> firstn (S n) l = firstn n l ++ [nth n l 0].
Proof.
  induction l as [| x l IH]; intros [| n] H; cbn in *; try lia.
  - reflexivity.
  - f_equal. apply IH. lia.
Qed.

Lemma spec_addr_hex_step :
  forall v n,
    (n < length v)%nat ->
    spec_addr_hex (firstn (S n) v)
    = [spec_hex_digit (load v n / 16); spec_hex_digit (load v n mod 16)]
        ++ spec_addr_hex (firstn n v).
Proof.
  intros v n H. unfold spec_addr_hex, load.
  now rewrite firstn_S_nth, rev_app_distr by assumption.
Qed.

Lemma encode_addr_zone :
  forall n addr P k R,
    (n <= length (val (a addr)))%nat ->
    Forall is_byte (val (a addr)) ->
    (2 * n + 1 <= k)%nat ->
    encode_addr n addr (P ++ repeat 0 k ++ R) (length P + k) (length P)
    = ((P ++ spec_addr_hex (firstn n (val (a addr))))
         ++ repeat 0 (k - 2 * n) ++ R,
       (length P + 2 * n)%nat).
Proof.
  induction n as [| n IH]; intros addr P k R Hn Hbytes Hk.
  - cbn. now rewrite app_nil_r, Nat.sub_0_r, Nat.add_0_r.
  - cbn [encode_addr].
    assert (Hlt : (length P <? length P + k)%nat = true)
      by (apply Nat.ltb_lt; lia).
    rewrite Hlt.
    replace (length P + k - length P)%nat with k by lia.
    assert (Hb : is_byte (load (val (a addr)) n)).
    { rewrite Forall_forall in Hbytes. apply Hbytes. apply nth_In. lia. }
    rewrite bin2hex_zone by (assumption || lia).
    set (P' := P ++ [spec_hex_digit (load (val (a addr)) n / 16);
                     spec_hex_digit (load (val (a addr)) n mod 16)]).
    replace (length P + 2)%nat with (length P')
      by (unfold P'; rewrite length_app; cbn; lia).
    replace (length P + k)%nat with (length P' + (k - 2))%nat
      by (unfold P'; rewrite length_app; cbn; lia).
    rewrite IH by (assumption || lia).
    rewrite spec_addr_hex_step by lia.
    unfold P'. rewrite length_app. cbn [length].
    f_equal; [| lia].
    rewrite <- !app_assoc. do 4 f_equal. f_equal. lia.
Qed.

(** ** The encoder on a buffer that holds the whole key *)

Lemma strlen_zone :
  forall P k R,
    no_nul P -> (0 < k)%nat -> strlen (P ++ repeat 0 k ++ R) = length P.
Proof.
  intros P [| k] R H Hk; [lia |]. cbn [repeat app].
  now apply strlen_app_nul.
Qed.

Lemma c_str_zone :
  forall P k R,
    no_nul P -> (0 < k)%nat -> c_str (P ++ repeat 0 k ++ R) = P.
Proof.
  intros P [| k] R H Hk; [lia |]. cbn [repeat app].
  now apply c_str_app_nul.
Qed.

Lemma store_zone_at :
  forall P k R v i,
    i = length P -> (0 < k)%nat ->
    store (P ++ repeat 0 k ++ R) i v = (P ++ [v]) ++ repeat 0 (k - 1) ++ R.
Proof.
  intros P [| k] R v i -> Hk; [lia |].
  rewrite store_zone. cbn [Nat.sub]. now rewrite Nat.sub_0_r.
Qed.

Lemma encode_addr_zone_at :
  forall addr P k R path_size len,
    length (val (a addr)) = 6%nat ->
    Forall is_byte (val (a addr)) ->
    len = length P -> path_size = (length P + k)%nat -> (13 <= k)%nat ->
    encode_addr 6 addr (P ++ repeat 0 k ++ R) path_size len
    = ((P ++ spec_addr_hex (val (a addr))) ++ repeat 0 (k - 12) ++ R,
       (length P + 12)%nat).
Proof.
  intros addr P k R ps len Hv Hbytes -> -> Hk.
  rewrite encode_addr_zone by (assumption || lia).
  now rewrite firstn_all2 by lia.
Qed.

Lemma strncpy_zone_at :
  forall src P k R off n,
    off = length P -> n = k -> (strlen src < k)%nat ->
    strncpy (P ++ repeat 0 k ++ R) off src n
    = (P ++ c_str src) ++ repeat 0 (k - strlen src) ++ R.
Proof.
  intros src P k R off n -> -> H. now apply strncpy_zone.
Qed.

Lemma spec_addr_hex_length :
  forall v, length (spec_addr_hex v) = (2 * length v)%nat.
Proof.
  intros v. unfold spec_addr_hex. rewrite <- (length_rev v).
  generalize (rev v) as l.
  induction l as [| x l IH]; [reflexivity |].
  cbn [flat_map app length]. rewrite IH. lia.
Qed.

Lemma spec_key_text_length :
  forall subsys addr key,
    length (val (a addr)) = 6%nat ->
    length (spec_key_text subsys addr key)
    = (3 + strlen subsys + 1 + 13
       + match key with Some k => 1 + strlen k | None => 0 end)%nat.
Proof.
  intros subsys addr key Hv. unfold spec_key_text, spec_addr_text.
  rewrite !length_app, spec_addr_hex_length, Hv, c_str_length.
  destruct key; cbn; rewrite ?c_str_length; lia.
Qed.

(** When the buffer is longer than the key text, the encoder leaves the
    text of the grammar at the start of the buffer, NULs up to the end of
    the buffer, and the memory behind the buffer as it was. *)
Lemma bt_settings_encode_key_fits :
  forall m path_size subsys addr key,
    length (val (a addr)) = 6%nat ->
    Forall is_byte (val (a addr)) ->
    type addr = 0 \/ type addr = 1 ->
    (length (spec_key_text subsys addr key) < path_size)%nat ->
    (path_size <= length m)%nat ->
    bt_settings_encode_key m path_size subsys addr key
    = spec_key_text subsys addr key
        ++ repeat 0 (path_size - length (spec_key_text subsys addr key))
        ++ skipn path_size m.
Proof.
  intros m ps subsys addr key Hv Hbytes Htype Hfit Hm.
  rewrite spec_key_text_length in * by assumption.
  set (klen := match key with Some k => (1 + strlen k)%nat | None => O end) in *.
  unfold bt_settings_encode_key.
  assert (H3 : (3 <? ps)%nat = true) by (apply Nat.ltb_lt; lia).
  rewrite H3.
  rewrite strcpy_overlay by (cbn; lia).
  rewrite strncpy_overlay by (rewrite overlay_length; cbn; lia).
  rewrite (firstn_all2 (n := (ps - 3)%nat)) by (rewrite c_str_length; lia).
  set (s := strlen subsys) in *.
  assert (E : overlay (overlay m 0 (c_str (cstr "bt/") ++ [0])) 3
                (c_str subsys ++ repeat 0 (ps - 3 - s))
              = (cstr "bt/" ++ c_str subsys)
                  ++ repeat 0 (ps - 3 - s) ++ skipn ps m).
  { unfold overlay.
    change (firstn 0 m) with (@nil Z).
    change (c_str (cstr "bt/") ++ [0]) with (cstr "bt/" ++ [0]).
    change (0 + length (cstr "bt/" ++ [0%Z]))%nat with 4%nat.
    rewrite (length_app (c_str subsys)), repeat_length, c_str_length. fold s.
    rewrite app_nil_l, <- (app_assoc (cstr "bt/") [0]).
    rewrite (firstn_app_exact (cstr "bt/")) by reflexivity.
    rewrite <- !app_assoc. do 3 f_equal.
    rewrite (skipn_app_plus (cstr "bt/") _ _ (s + (ps - 3 - s))%nat)
      by reflexivity.
    rewrite (skipn_app_plus [0] _ _ (ps - 4)%nat) by (cbn; lia).
    rewrite skipn_skipn. f_equal. lia. }
  rewrite E. clear E.
  set (R := skipn ps m).
  set (P0 := cstr "bt/" ++ c_str subsys).
  assert (HP0 : no_nul P0).
  { apply Forall_app. split; [| apply c_str_no_nul].
    repeat constructor; discriminate. }
  assert (LP0 : length P0 = (3 + s)%nat).
  { unfold P0. rewrite length_app, c_str_length. reflexivity. }
  rewrite (strlen_zone P0) by (assumption || lia).
  assert (C1 : (length P0 <? ps)%nat = true) by (apply Nat.ltb_lt; lia).
  rewrite C1.
  rewrite (store_zone_at P0) by lia.
  set (P1 := P0 ++ [char_of "/"]).
  assert (LP1 : length P1 = (4 + s)%nat)
    by (unfold P1; rewrite length_app, LP0; cbn [length]; lia).
  rewrite (encode_addr_zone_at addr P1) by (assumption || lia).
  set (P2 := P1 ++ spec_addr_hex (val (a addr))).
  assert (LP2 : length P2 = (16 + s)%nat)
    by (unfold P2; rewrite length_app, LP1, spec_addr_hex_length; lia).
  assert (C2 : (length P1 + 12 <? ps)%nat = true) by (apply Nat.ltb_lt; lia).
  rewrite C2.
  rewrite (store_zone_at P2) by lia.
  assert (Hdigit : to_uint8 (char_of "0" + type addr) = char_of "0" + type addr)
    by (destruct Htype as [-> | ->]; reflexivity).
  rewrite Hdigit.
  set (P3 := P2 ++ [char_of "0" + type addr]).
  assert (LP3 : length P3 = (17 + s)%nat)
    by (unfold P3; rewrite length_app, LP2; cbn [length]; lia).
  assert (Htext : forall tail,
             spec_key_text subsys addr None ++ tail = P3 ++ tail).
  { intros tail. unfold spec_key_text, spec_addr_text, P3, P2, P1, P0.
    now rewrite <- !app_assoc. }
  destruct key as [key0 |]; subst klen.
  - assert (C3 : (S (length P1 + 12) <? ps)%nat = true)
      by (apply Nat.ltb_lt; lia).
    rewrite C3.
    rewrite (store_zone_at P3) by lia.
    set (P4 := P3 ++ [char_of "/"]).
    assert (LP4 : length P4 = (18 + s)%nat)
      by (unfold P4; rewrite length_app, LP3; cbn [length]; lia).
    rewrite (strncpy_zone_at key0 P4) by lia.
    rewrite <- (app_assoc P4).
    rewrite (skipn_app_plus P4 _ _ 0) by lia.
    rewrite skipn_0.
    rewrite (strlen_zone (c_str key0)) by (apply c_str_no_nul || lia).
    rewrite c_str_length.
    assert (C4 : (ps <=? S (S (length P1 + 12)) + strlen key0)%nat = false)
      by (apply Nat.leb_gt; lia).
    rewrite C4.
    replace (spec_key_text subsys addr (Some key0))
      with (spec_key_text subsys addr None ++ cstr "/" ++ c_str key0)
      by (unfold spec_key_text; rewrite <- !app_assoc; reflexivity).
    rewrite <- !app_assoc. rewrite Htext.
    unfold P4. rewrite <- !app_assoc.
    replace (ps - 3 - s - 1 - 12 - 1 - 1 - strlen key0)%nat
      with (ps - (3 + s + 1 + 13 + (1 + strlen key0)))%nat by lia.
    reflexivity.
  - assert (C3 : (ps <=? S (length P1 + 12))%nat = false)
      by (apply Nat.leb_gt; lia).
    rewrite C3. rewrite Htext.
    replace (ps - 3 - s - 1 - 12 - 1)%nat
      with (ps - (3 + s + 1 + 13 + 0))%nat by lia.
    reflexivity.
Qed.

(** ** The decoder on the text of the grammar *)

Lemma store_store :
  forall m i v v', store (store m i v) i v' = store m i v'.
Proof.
  induction m as [| x m IH]; intros [| i] v v'; cbn; auto.
  now rewrite IH.
Qed.

Lemma hex2bin_pair :
  forall b rest buf off,
    is_byte b -> (off < length buf)%nat ->
    hex2bin (spec_hex_digit (b / 16) :: spec_hex_digit (b mod 16) :: rest)
            2 buf off 1
    = (store buf off b, 1%nat).
Proof.
  intros b rest buf off Hb Hoff.
  destruct (byte_nibbles b Hb) as (_ & _ & Hhi & Hlo).
  destruct (byte_of_nibbles b Hb) as (Eshift & Esum).
  unfold hex2bin. cbn [Nat.div Nat.modulo Nat.divmod Nat.add fst snd
                       Nat.ltb Nat.leb Nat.eqb Nat.sub hex2bin_loop].
  unfold load at 1. cbn [nth].
  rewrite char2hex_nibble by assumption.
  unfold load at 1. cbn [nth].
  rewrite char2hex_nibble by assumption.
  rewrite load_store_same by assumption.
  now rewrite Eshift, Esum, store_store.
Qed.

Lemma settings_name_next_plain :
  forall l, Forall plain l -> settings_name_next l = length l.
Proof.
  induction l as [| c l IH]; intros H; [reflexivity |].
  inversion H as [| ? ? [Hc0 Hc1] Hl]; subst. cbn [settings_name_next length].
  apply Z.eqb_neq in Hc0, Hc1. rewrite Hc0, Hc1. cbn [orb]. f_equal. auto.
Qed.

Lemma settings_name_next_le :
  forall l, (settings_name_next l <= length l)%nat.
Proof.
  induction l as [| c l IH]; cbn [settings_name_next length]; [lia |].
  destruct ((c =? 0) || (c =? char_of "/")); lia.
Qed.

Lemma spec_addr_hex_plain :
  forall v, Forall is_byte v -> Forall plain (spec_addr_hex v).
Proof.
  intros v Hv. unfold spec_addr_hex.
  assert (Hr : Forall is_byte (rev v)).
  { rewrite Forall_forall in *. intros x Hx. apply Hv. now apply in_rev. }
  induction Hr as [| b l Hb Hl IH]; cbn [flat_map app]; [constructor |].
  destruct (byte_nibbles b Hb) as (_ & _ & Hhi & Hlo).
  constructor; [now apply spec_hex_digit_plain |].
  constructor; [now apply spec_hex_digit_plain | exact IH].
Qed.

Lemma spec_addr_text_plain :
  forall addr,
    Forall is_byte (val (a addr)) -> type addr = 0 \/ type addr = 1 ->
    Forall plain (spec_addr_text addr).
Proof.
  intros addr Hv Ht. unfold spec_addr_text. apply Forall_app. split.
  - now apply spec_addr_hex_plain.
  - constructor; [| constructor].
    destruct Ht as [-> | ->]; split; discriminate.
Qed.

(** Decoding the thirteen characters of an address gives the address
    back, whatever the record held before. *)
Lemma bt_settings_decode_key_text :
  forall addr out,
    length (val (a addr)) = 6%nat ->
    Forall is_byte (val (a addr)) ->
    type addr = 0 \/ type addr = 1 ->
    length (val (a out)) = 6%nat ->
    bt_settings_decode_key (spec_addr_text addr) out = (0, addr).
Proof.
  intros [t [v]] [t0 [v0]] Hv Hbytes Ht Hv0. cbn [type a val] in *.
  unfold bt_settings_decode_key.
  rewrite settings_name_next_plain by now apply spec_addr_text_plain.
  unfold spec_addr_text at 1. cbn [type a val].
  rewrite length_app, spec_addr_hex_length, Hv. cbn [length Nat.mul Nat.add].
  cbn [Nat.eqb negb].
  destruct v as [| b0 [| b1 [| b2 [| b3 [| b4 [| b5 [| ? ?]]]]]]];
    try discriminate Hv.
  destruct v0 as [| c0 [| c1 [| c2 [| c3 [| c4 [| c5 [| ? ?]]]]]]];
    try discriminate Hv0.
  repeat match goal with
         | H : Forall _ (_ :: _) |- _ => inversion H; clear H; subst
         end.
  assert (Hdec : decode_addr 6 0
                   (spec_addr_text {| type := t; a := {| val := [b0; b1; b2; b3; b4; b5] |} |})
                   [c0; c1; c2; c3; c4; c5]
                 = [b0; b1; b2; b3; b4; b5]).
  { unfold spec_addr_text, spec_addr_hex.
    cbn [type a val rev app flat_map decode_addr Nat.mul Nat.add Nat.sub skipn].
    repeat (rewrite hex2bin_pair by (assumption || (cbn; lia));
            cbn [store length]).
    reflexivity. }
  rewrite Hdec.
  unfold spec_addr_text, spec_addr_hex, load.
  cbn [type a val rev app flat_map nth].
  destruct Ht as [-> | ->]; reflexivity.
Qed.

(** ** The codec claims *)

Lemma plain_no_nul : forall l, Forall plain l -> no_nul l.
Proof.
  intros l H. unfold no_nul. rewrite Forall_forall in *.
  intros c Hc. now apply H.
Qed.

Lemma spec_key_text_no_nul :
  forall subsys addr key,
    Forall is_byte (val (a addr)) -> type addr = 0 \/ type addr = 1 ->
    no_nul (spec_key_text subsys addr key).
Proof.
  intros subsys addr key Hv Ht. unfold spec_key_text, no_nul.
  rewrite !Forall_app. repeat split.
  - repeat constructor; discriminate.
  - apply c_str_no_nul.
  - repeat constructor; discriminate.
  - apply plain_no_nul. now apply spec_addr_text_plain.
  - destruct key; [| constructor].
    apply Forall_app. split; [| apply c_str_no_nul].
    repeat constructor; discriminate.
Qed.

(** The string the encoder leaves in a buffer that is long enough is the
    text of the grammar, in full. *)
Lemma bt_settings_encode_key_text :
  forall m path_size subsys addr key,
    length (val (a addr)) = 6%nat ->
    Forall is_byte (val (a addr)) ->
    type addr = 0 \/ type addr = 1 ->
    (length (spec_key_text subsys addr key) < path_size)%nat ->
    (path_size <= length m)%nat ->
    c_str (bt_settings_encode_key m path_size subsys addr key)
    = spec_key_text subsys addr key.
Proof.
  intros m ps subsys addr key Hv Hbytes Ht Hfit Hm.
  rewrite bt_settings_encode_key_fits by assumption.
  apply c_str_zone; [now apply spec_key_text_no_nul | lia].
Qed.

(** C1: for every address of six bytes, each in 0x00-0xFF, and type 0 or
    1, for every subsystem, optional leaf key and initial content of the
    memory: when the buffer is longer than the full path, the 13 characters
    that follow ["bt/<subsys>/"] in the encoded string decode, into any
    6-byte address record, to return value 0 and exactly the original
    bytes, in their storage order, and the original type. *)
Theorem encode_decode_roundtrip :
  forall (m : list Z) (path_size : nat) (subsys : list Z)
         (addr : bt_addr_le_t) (key : option (list Z)) (out : bt_addr_le_t),
    length (val (a addr)) = 6%nat ->
    Forall (fun b => 0 <= b < 256) (val (a addr)) ->
    type addr = 0 \/ type addr = 1 ->
    (3 + strlen subsys + 1 + 13
     + match key with Some k => 1 + strlen k | None => 0 end
     < path_size)%nat ->
    (path_size <= length m)%nat ->
    length (val (a out)) = 6%nat ->
    bt_settings_decode_key
      (firstn 13
         (skipn (3 + strlen subsys + 1)
            (c_str (bt_settings_encode_key m path_size subsys addr key))))
      out
    = (0, addr).
Proof.
  intros m ps subsys addr key out Hv Hbytes Ht Hfit Hm Hout.
  rewrite bt_settings_encode_key_text
    by (try rewrite spec_key_text_length; assumption).
  unfold spec_key_text.
  rewrite (app_assoc (cstr "bt/")), (app_assoc _ (cstr "/")).
  rewrite (skipn_app_plus _ _ _ 0)
    by (rewrite !length_app, c_str_length; cbn [length cstr map
          list_ascii_of_string]; lia).
  rewrite skipn_0.
  rewrite firstn_app_exact
    by (unfold spec_addr_text;
        rewrite length_app, spec_addr_hex_length, Hv; reflexivity).
  now apply bt_settings_decode_key_text.
Qed.

(** C2, as the code has it: a key whose first path segment does not have
    13 characters, or whose 13th character is neither ['0'] nor ['1'], is
    refused with [-EINVAL] and the address record is left as it was, type
    and all six bytes. *)
Theorem bt_settings_decode_key_rejects :
  forall (key : list Z) (addr : bt_addr_le_t),
    settings_name_next key <> 13%nat
    \/ (load key 12 <> char_of "0" /\ load key 12 <> char_of "1") ->
    bt_settings_decode_key key addr = (- EINVAL, addr).
Proof.
  intros key addr H. unfold bt_settings_decode_key.
  destruct (Nat.eqb_spec (settings_name_next key) 13) as [Hlen | Hlen];
    cbn [negb]; [| reflexivity].
  destruct H as [H | [H0 H1]]; [contradiction |].
  apply Z.eqb_neq in H0, H1. now rewrite H0, H1.
Qed.

(** Every other key is accepted: the characters before the type digit
    play no part in the decision. *)
Lemma bt_settings_decode_key_accepts :
  forall (key : list Z) (addr : bt_addr_le_t),
    settings_name_next key = 13%nat ->
    load key 12 = char_of "0" \/ load key 12 = char_of "1" ->
    fst (bt_settings_decode_key key addr) = 0.
Proof.
  intros key addr Hlen H. unfold bt_settings_decode_key.
  rewrite Hlen. cbn [Nat.eqb negb].
  destruct H as [-> | ->]; reflexivity.
Qed.

(** ** The encoder on any buffer: bounds and termination *)

Lemma overlay_skipn_after :
  forall m off bs k,
    (off + length bs <= k)%nat -> (off + length bs <= length m)%nat ->
    skipn k (overlay m off bs) = skipn k m.
Proof.
  intros m off bs k Hk Hm. unfold overlay.
  assert (Hf : length (firstn off m) = off) by (rewrite length_firstn; lia).
  rewrite app_assoc.
  rewrite (skipn_app_plus _ _ _ (k - (off + length bs))%nat)
    by (rewrite length_app; lia).
  rewrite skipn_skipn. f_equal. lia.
Qed.

Lemma overlay_skipn_at :
  forall m off bs,
    (off <= length m)%nat ->
    skipn off (overlay m off bs) = bs ++ skipn (off + length bs) m.
Proof.
  intros m off bs Hm. unfold overlay.
  rewrite (skipn_app_plus _ _ _ 0) by (rewrite length_firstn; lia).
  apply skipn_0.
Qed.

Lemma load_skipn :
  forall m off i, load m (off + i) = load (skipn off m) i.
Proof.
  intros m off i. unfold load. now rewrite nth_skipn.
Qed.

Lemma strncpy_length :
  forall n m off src, length (strncpy m off src n) = length m.
Proof.
  induction n as [| n IH]; intros m off src; cbn [strncpy]; [reflexivity |].
  now rewrite IH, store_length.
Qed.

Lemma strncpy_skipn :
  forall n m off src k,
    (off + n <= k)%nat -> skipn k (strncpy m off src n) = skipn k m.
Proof.
  induction n as [| n IH]; intros m off src k H; cbn [strncpy];
    [reflexivity |].
  rewrite IH by lia. apply skipn_store. lia.
Qed.

Lemma strcpy_length :
  forall src m off, length (strcpy m off src) = length m.
Proof.
  induction src as [| c src IH]; intros m off; cbn [strcpy].
  - apply store_length.
  - destruct (c =? 0); [apply store_length |].
    now rewrite IH, store_length.
Qed.

Lemma strcpy_skipn :
  forall src m off k,
    (off + strlen src < k)%nat -> skipn k (strcpy m off src) = skipn k m.
Proof.
  induction src as [| c src IH]; intros m off k H; cbn [strcpy].
  - apply skipn_store. lia.
  - cbn [strlen] in H. destruct (c =? 0).
    + apply skipn_store. lia.
    + rewrite IH by lia. apply skipn_store. lia.
Qed.

(** The padding of [strncpy] reaches the last byte it may write, unless
    the source fills all of them. *)
Lemma strncpy_tail :
  forall m off src n,
    (0 < n)%nat -> (off + n <= length m)%nat ->
    (off + strlen (skipn off (strncpy m off src n)) < off + n)%nat ->
    load (strncpy m off src n) (off + n - 1) = 0.
Proof.
  intros m off src n Hn Hm Hlen.
  rewrite strncpy_overlay in * by assumption.
  set (bs := firstn n (c_str src) ++ repeat 0 (n - strlen src)) in *.
  assert (Lbs : length bs = n).
  { unfold bs. rewrite length_app, length_firstn, repeat_length, c_str_length.
    lia. }
  rewrite overlay_skipn_at in Hlen by lia.
  replace (off + n - 1)%nat with (off + (n - 1))%nat by lia.
  rewrite load_skipn, overlay_skipn_at by lia.
  unfold load. rewrite app_nth1 by lia.
  destruct (Nat.le_gt_cases n (strlen src)) as [Hfull | Hpad].
  - exfalso.
    assert (Hbs : bs = firstn n (c_str src)).
    { unfold bs. replace (n - strlen src)%nat with O by lia.
      apply app_nil_r. }
    assert (Hnn : no_nul bs).
    { rewrite Hbs. unfold no_nul. apply Forall_forall. intros c Hc.
      pose proof (c_str_no_nul src) as Hs. unfold no_nul in Hs.
      rewrite Forall_forall in Hs. apply Hs.
      rewrite <- (firstn_skipn n (c_str src)). apply in_or_app. now left. }
    pose proof (strlen_app_ge bs (skipn (off + length bs) m) Hnn). lia.
  - unfold bs. rewrite app_nth2
      by (rewrite length_firstn, c_str_length; lia).
    apply nth_repeat.
Qed.

Lemma encoding_store :
  forall m ps path len v,
    encoding m ps path len -> (len < ps)%nat ->
    encoding m ps (store path len v) (S len).
Proof.
  intros m ps path len v (Hl & Hs & Hz) Hlen. repeat split.
  - now rewrite store_length.
  - now rewrite skipn_store.
  - intros H. rewrite load_store_other by lia. apply Hz. lia.
Qed.

Lemma encoding_bin2hex :
  forall m ps path len b path' n,
    encoding m ps path len -> (len < ps)%nat -> (ps <= length m)%nat ->
    bin2hex [b] path len (ps - len) = (path', n) ->
    encoding m ps path' (len + n).
Proof.
  intros m ps path len b path' n (Hl & Hs & Hz) Hlen Hm.
  unfold bin2hex. cbn [length Nat.mul Nat.add bin2hex_loop].
  assert (Hsame : (path, O) = (path', n) -> encoding m ps path' (len + n)).
  { intros H. inversion H; subst. rewrite Nat.add_0_r. now repeat split. }
  destruct (Nat.ltb_spec (ps - len) 3) as [Hshort | Hroom]; [exact Hsame |].
  destruct (hex2char (Z.shiftr b 4)) as [hi |]; [| exact Hsame].
  destruct (hex2char (Z.land b 15)) as [lo |]; [| exact Hsame].
  intros H. inversion H; subst. clear H Hsame. repeat split.
  - now rewrite !store_length.
  - now rewrite !skipn_store by lia.
  - intros H.
    destruct (Nat.eq_dec (len + 2) (ps - 1)) as [E | E].
    + rewrite <- E. apply load_store_same. rewrite !store_length. lia.
    + rewrite !load_store_other by lia. apply Hz. lia.
Qed.

Lemma encoding_encode_addr :
  forall k addr m ps path len path' len',
    encoding m ps path len -> (ps <= length m)%nat ->
    encode_addr k addr path ps len = (path', len') ->
    encoding m ps path' len'.
Proof.
  induction k as [| k IH]; intros addr m ps path len path' len' Hinv Hm;
    cbn [encode_addr].
  - intros H. now inversion H; subst.
  - destruct (Nat.ltb_spec len ps) as [Hlen | Hlen].
    + destruct (bin2hex _ path len (ps - len)) as [path1 n] eqn:Hb.
      apply IH; [| assumption].
      eapply encoding_bin2hex; eauto.
    + intros H. now inversion H; subst.
Qed.

Lemma encoding_key :
  forall m ps path len key,
    encoding m ps path len -> (len <= ps)%nat -> (ps <= length m)%nat ->
    encoding m ps (strncpy path len key (ps - len))
      (len + strlen (skipn len (strncpy path len key (ps - len)))).
Proof.
  intros m ps path len key (Hl & Hs & Hz) Hlen Hm. repeat split.
  - now rewrite strncpy_length.
  - now rewrite strncpy_skipn by lia.
  - intros H.
    replace (ps - 1)%nat with (len + (ps - len) - 1)%nat by lia.
    apply strncpy_tail; lia.
Qed.

(** The state after ["bt/"] and the subsystem name have been copied. *)
Lemma encoding_subsys :
  forall m ps subsys,
    (3 < ps)%nat -> (ps <= length m)%nat ->
    let path := strncpy (strcpy m 0 (cstr "bt/")) 3 subsys (ps - 3) in
    encoding m ps path (strlen path).
Proof.
  intros m ps subsys H3 Hm path. repeat split.
  - unfold path. now rewrite strncpy_length, strcpy_length.
  - unfold path. rewrite strncpy_skipn by lia.
    apply strcpy_skipn. cbn. lia.
  - intros Hlen.
    assert (Hhead : firstn 3 path = cstr "bt/").
    { unfold path. rewrite strncpy_overlay
        by (rewrite strcpy_length; lia).
      unfold overlay at 1.
      rewrite firstn_app_exact
        by (rewrite length_firstn, strcpy_length; lia).
      rewrite strcpy_overlay by (cbn; lia). reflexivity. }
    assert (Hsplit : path = cstr "bt/" ++ skipn 3 path)
      by (rewrite <- Hhead at 1; symmetry; apply firstn_skipn).
    assert (Hstr : strlen path = (3 + strlen (skipn 3 path))%nat).
    { rewrite Hsplit at 1. cbn [cstr map list_ascii_of_string app].
      reflexivity. }
    replace (ps - 1)%nat with (3 + (ps - 3) - 1)%nat by lia.
    apply strncpy_tail; try (rewrite strcpy_length); try lia.
    fold path. lia.
Qed.

(** X1: for every capacity and every input, with the buffer inside the
    memory [m]: the encoder changes no byte outside the first [path_size] bytes
    (so it writes at most [path_size] bytes and nothing at capacity 0),
    and for a capacity of at least 1 it leaves a NUL-terminated string of
    fewer than [path_size] characters. *)
Theorem bt_settings_encode_key_bounded :
  forall (m : list Z) (path_size : nat) (subsys : list Z)
         (addr : bt_addr_le_t) (key : option (list Z)),
    (path_size <= length m)%nat ->
    let path := bt_settings_encode_key m path_size subsys addr key in
    length path = length m
    /\ skipn path_size path = skipn path_size m
    /\ ((0 < path_size)%nat ->
        (strlen path < path_size)%nat
        /\ load path (strlen path) = 0).
Proof.
  intros m ps subsys addr key Hm path.
  assert (Hend : forall p,
             length p = length m -> (0 < ps)%nat ->
             load p (ps - 1) = 0 ->
             (strlen p < ps)%nat /\ load p (strlen p) = 0).
  { intros p Hl Hps Hz.
    pose proof (strlen_load_nul p (ps - 1) ltac:(lia) Hz). split; [lia |].
    clear - p. unfold load. induction p as [| c p IH]; [reflexivity |].
    cbn [strlen]. destruct (Z.eqb_spec c 0) as [-> | Hc]; [reflexivity |].
    exact IH. }
  unfold path, bt_settings_encode_key.
  destruct (Nat.ltb_spec 3 ps) as [H3 | H3].
  - pose proof (encoding_subsys m ps subsys H3 Hm) as Hinv0.
    cbv zeta in Hinv0.
    set (path0 := strncpy (strcpy m 0 (cstr "bt/")) 3 subsys (ps - 3)) in *.
    assert (Hinv1 :
      forall p l, (if (strlen path0 <? ps)%nat
                   then (store path0 (strlen path0) (char_of "/"),
                         S (strlen path0))
                   else (path0, strlen path0)) = (p, l) ->
                  encoding m ps p l).
    { intros p l. destruct (Nat.ltb_spec (strlen path0) ps) as [Hc | Hc];
        intros Heq; inversion Heq; subst;
        [now apply encoding_store | assumption]. }
    destruct (if (strlen path0 <? ps)%nat then _ else _) as [path1 len1].
    specialize (Hinv1 _ _ eq_refl).
    destruct (encode_addr 6 addr path1 ps len1) as [path2 len2] eqn:Haddr.
    pose proof (encoding_encode_addr _ _ _ _ _ _ _ _ Hinv1 Hm Haddr) as Hinv2.
    assert (Hinv3 :
      forall p l, (if (len2 <? ps)%nat
                   then (store path2 len2
                           (to_uint8 (char_of "0" + type addr)), S len2)
                   else (path2, len2)) = (p, l) ->
                  encoding m ps p l).
    { intros p l. destruct (Nat.ltb_spec len2 ps) as [Hc | Hc];
        intros Heq; inversion Heq; subst;
        [now apply encoding_store | assumption]. }
    destruct (if (len2 <? ps)%nat then _ else _) as [path3 len3].
    specialize (Hinv3 _ _ eq_refl).
    assert (Hinv4 :
      forall p l,
        match key with
        | Some key0 =>
            if (len3 <? ps)%nat
            then (strncpy (store path3 len3 (char_of "/")) (S len3) key0
                    (ps - S len3),
                  (S len3
                   + strlen (skipn (S len3)
                       (strncpy (store path3 len3 (char_of "/")) (S len3)
                          key0 (ps - S len3))))%nat)
            else (path3, len3)
        | None => (path3, len3)
        end = (p, l) -> encoding m ps p l).
    { intros p l. destruct key as [key0 |].
      - destruct (Nat.ltb_spec len3 ps) as [Hc | Hc];
          intros Heq; inversion Heq; subst.
        + apply encoding_key; [| lia | assumption].
          now apply encoding_store.
        + assumption.
      - intros Heq. now inversion Heq; subst. }
    destruct (match key with Some _ => _ | None => _ end) as [path4 len4].
    specialize (Hinv4 _ _ eq_refl).
    destruct Hinv4 as (Hl & Hs & Hz).
    destruct (Nat.leb_spec ps len4) as [Hover | Hin].
    + repeat split.
      * now rewrite store_length.
      * rewrite skipn_store by lia. assumption.
      * apply Hend; [now rewrite store_length | lia |].
        apply load_store_same. lia.
      * apply Hend; [now rewrite store_length | lia |].
        apply load_store_same. lia.
    + repeat split; try assumption; apply Hend; auto; lia.
  - destruct (Nat.ltb_spec 0 ps) as [Hpos | Hzero].
    + assert (Hnul : strlen (store m 0 0) = O).
      { destruct m; [cbn in Hm; lia | reflexivity]. }
      repeat split.
      * apply store_length.
      * now rewrite skipn_store.
      * lia.
      * rewrite Hnul. apply load_store_same. lia.
    + repeat split; lia.
Qed.

(** * Properties of the handlers *)

Section HostProperties.
Context {target : Target} {hci : HciCore}.

(** ** Before [BT_DEV_ENABLE] is set *)

(** C10: while the stack-enabled flag is clear, the restore handler
    returns 0 for every key name, length and value reader, and leaves the
    device state, the pending work and the record of calls as they were:
    the value reader is not even invoked. *)
Theorem set_setting_before_enable :
  forall (A : Type) (name : option (list Z)) (len_rd : nat)
         (read_cb : settings_read_cb A) (cb_arg : A) (w : world),
    atomic_test_bit (bt_dev.flags (dev w)) BT_DEV_ENABLE = false ->
    set_setting name len_rd read_cb cb_arg w = (0, w).
Proof.
  intros A name len_rd read_cb cb_arg w Hoff.
  unfold set_setting. now rewrite Hoff.
Qed.

(** C9: while the stack-enabled flag is clear, the commit handler returns
    0 and changes nothing: no device field is written, no collaborator is
    called (no name, no identity generation, no finalization) and the
    save work is not submitted. *)
Theorem commit_settings_before_enable :
  forall w : world,
    atomic_test_bit (bt_dev.flags (dev w)) BT_DEV_ENABLE = false ->
    commit_settings w = (0, w).
Proof.
  intros w Hoff. unfold commit_settings. now rewrite Hoff.
Qed.

(** ** The restore handler, key by key *)

(** C7: with the appearance field compiled in and the stack enabled, the
    key "appearance" with a payload length other than the size of the
    in-memory field yields [-EINVAL]; the world is unchanged, so the
    appearance keeps its value and no call to the value reader was made. *)
Theorem set_setting_appearance_wrong_length :
  forall (A : Type) (len_rd : nat) (read_cb : settings_read_cb A)
         (cb_arg : A) (w : world),
    atomic_test_bit (bt_dev.flags (dev w)) BT_DEV_ENABLE = true ->
    CONFIG_BT_DEVICE_APPEARANCE_DYNAMIC = true ->
    len_rd <> length (bt_dev.appearance (dev w)) ->
    set_setting (Some (cstr "appearance")) len_rd read_cb cb_arg w
    = (- EINVAL, w).
Proof.
  intros A len_rd read_cb cb_arg w Hon Hcfg Hlen.
  unfold set_setting. rewrite Hon, Hcfg. cbv beta zeta.
  change (settings_name_next (cstr "appearance")) with 10%nat.
  change (strncmp (cstr "appearance") (cstr "id") 10 =? 0) with false.
  change (strncmp (cstr "appearance") (cstr "name") 10 =? 0) with false.
  change (strncmp (cstr "appearance") (cstr "appearance") 10 =? 0) with true.
  rewrite andb_false_r. cbn [negb andb].
  apply Nat.eqb_neq in Hlen. now rewrite Hlen.
Qed.

(** The comparison [strncmp(name, lit, len)] with [len] the length of the
    first segment of [name] succeeds exactly when the segment is an
    initial part of [lit]: it need not be all of [lit]. *)
Lemma strncmp_segment :
  forall (name lit : list Z),
    no_nul lit ->
    strncmp name lit (settings_name_next name) = 0
    <-> firstn (settings_name_next name) name
        = firstn (settings_name_next name) lit.
Proof.
  induction name as [| c name IH]; intros lit Hlit;
    cbn [settings_name_next].
  - cbn. tauto.
  - destruct (Z.eqb_spec c 0) as [-> | Hc0]; cbn [orb].
    + cbn. tauto.
    + destruct (c =? char_of "/"); [cbn; tauto |].
      cbn [strncmp hd tl firstn].
      destruct lit as [| c2 lit]; cbn [hd tl].
      * apply Z.eqb_neq in Hc0. rewrite Hc0.
        split; [lia | discriminate].
      * inversion Hlit as [| ? ? Hc2 Hlit']; subst.
        destruct (Z.eqb_spec c c2) as [<- | Hne].
        -- apply Z.eqb_neq in Hc0. rewrite Hc0. rewrite IH by assumption.
           cbn [firstn]. split; [now intros -> | now intros [= ->]].
        -- cbn [firstn]. split; [lia | intros [= H]; contradiction].
Qed.

(** A key whose first segment starts none of the known names is not
    found, and nothing changes. *)
Lemma set_setting_unknown :
  forall (A : Type) (name : list Z) (len_rd : nat)
         (read_cb : settings_read_cb A) (cb_arg : A) (w : world),
    atomic_test_bit (bt_dev.flags (dev w)) BT_DEV_ENABLE = true ->
    (forall lit, In lit [cstr "id"; cstr "name"; cstr "appearance";
                         cstr "irk"] ->
                 strncmp name lit (settings_name_next name) <> 0) ->
    set_setting (Some name) len_rd read_cb cb_arg w = (- ENOENT, w).
Proof.
  intros A name len_rd read_cb cb_arg w Hon Hno.
  unfold set_setting. rewrite Hon. cbv beta zeta. cbn [negb].
  assert (Hf : forall lit,
             In lit [cstr "id"; cstr "name"; cstr "appearance"; cstr "irk"] ->
             (strncmp name lit (settings_name_next name) =? 0) = false)
    by (intros lit Hin; apply Z.eqb_neq; auto).
  rewrite !Hf by (cbn [In]; tauto).
  now rewrite !andb_false_r.
Qed.

(** The "id" branch, whatever the reader returns.  The comparison with
    and the division by [sizeof(bt_dev.id_addr[0])] are made in
    [size_t]. *)
Lemma set_setting_id_branch :
  forall (A : Type) (len_rd : nat) (read_cb : settings_read_cb A)
         (cb_arg : A) (w : world) (L : Z) (buf : list Z),
    atomic_test_bit (bt_dev.flags (dev w)) BT_DEV_ENABLE = true ->
    atomic_test_bit (bt_dev.flags (dev w)) BT_DEV_PRESET_ID = false ->
    read_cb cb_arg (bt_dev.id_addr (dev w)) (length (bt_dev.id_addr (dev w)))
    = (L, buf) ->
    set_setting (Some (cstr "id")) len_rd read_cb cb_arg w
    = (0, set_dev
            (called (Call_read_cb (length (bt_dev.id_addr (dev w)))) w)
            (if to_size_t L <? Z.of_nat SIZEOF_BT_ADDR_LE
             then bt_dev.set_id_count
                    (bt_dev.set_id_addr (dev w)
                       (repeat 0 (length (bt_dev.id_addr (dev w))))) 0%N
             else bt_dev.set_id_count
                    (bt_dev.set_id_addr (dev w) buf)
                    (Z.to_N (to_uint8 (to_size_t L
                                       / Z.of_nat SIZEOF_BT_ADDR_LE))))).
Proof.
  intros A len_rd read_cb cb_arg w L buf Hon Hpreset Hread.
  unfold set_setting. rewrite Hon, Hpreset. cbv beta zeta.
  change (settings_name_next (cstr "id")) with 2%nat.
  change (strncmp (cstr "id") (cstr "id") 2 =? 0) with true.
  cbn [negb]. rewrite Hread.
  now destruct (to_size_t L <? Z.of_nat SIZEOF_BT_ADDR_LE).
Qed.

(** What C4 says of a read that succeeds: [L] bytes with [L] below one
    record zero the array and the count; otherwise the count is
    [L / sizeof(record)], rounded down, as a [uint8_t]. *)
Lemma set_setting_id_read :
  forall (A : Type) (len_rd : nat) (read_cb : settings_read_cb A)
         (cb_arg : A) (w : world) (L : Z) (buf : list Z),
    atomic_test_bit (bt_dev.flags (dev w)) BT_DEV_ENABLE = true ->
    atomic_test_bit (bt_dev.flags (dev w)) BT_DEV_PRESET_ID = false ->
    read_cb cb_arg (bt_dev.id_addr (dev w)) (length (bt_dev.id_addr (dev w)))
    = (L, buf) ->
    0 <= L < 2 ^ SIZE_WIDTH ->
    let w1 := called (Call_read_cb (length (bt_dev.id_addr (dev w)))) w in
    (L < Z.of_nat SIZEOF_BT_ADDR_LE ->
     set_setting (Some (cstr "id")) len_rd read_cb cb_arg w
     = (0, set_dev w1
             (bt_dev.set_id_count
                (bt_dev.set_id_addr (dev w)
                   (repeat 0 (length (bt_dev.id_addr (dev w))))) 0%N)))
    /\ (Z.of_nat SIZEOF_BT_ADDR_LE <= L ->
        L / Z.of_nat SIZEOF_BT_ADDR_LE < 256 ->
        set_setting (Some (cstr "id")) len_rd read_cb cb_arg w
        = (0, set_dev w1
                (bt_dev.set_id_count
                   (bt_dev.set_id_addr (dev w) buf)
                   (Z.to_N (L / Z.of_nat SIZEOF_BT_ADDR_LE))))).
Proof.
  intros A len_rd read_cb cb_arg w L buf Hon Hpreset Hread HL w1.
  rewrite (set_setting_id_branch A len_rd read_cb cb_arg w L buf)
    by assumption.
  fold w1. unfold to_size_t. rewrite Z.mod_small by assumption.
  split.
  - intros Hshort. apply Z.ltb_lt in Hshort. now rewrite Hshort.
  - intros Hfull Hcount.
    assert (Hge : (L <? Z.of_nat SIZEOF_BT_ADDR_LE) = false)
      by (apply Z.ltb_ge; lia).
    rewrite Hge. unfold to_uint8.
    rewrite Z.mod_small; [reflexivity |].
    split; [apply Z_div_nonneg_nonneg; lia | assumption].
Qed.

(** A read that fails does not take the branch that zeroes the array:
    converted to [size_t], a negative [ssize_t] is at least half the range
    and so not below the size of a record.  The count is then taken from
    the converted error code. *)
Lemma set_setting_id_read_error :
  forall (A : Type) (len_rd : nat) (read_cb : settings_read_cb A)
         (cb_arg : A) (w : world) (L : Z) (buf : list Z),
    atomic_test_bit (bt_dev.flags (dev w)) BT_DEV_ENABLE = true ->
    atomic_test_bit (bt_dev.flags (dev w)) BT_DEV_PRESET_ID = false ->
    read_cb cb_arg (bt_dev.id_addr (dev w)) (length (bt_dev.id_addr (dev w)))
    = (L, buf) ->
    0 < SIZE_WIDTH ->
    - 2 ^ (SIZE_WIDTH - 1) <= L < 0 ->
    Z.of_nat SIZEOF_BT_ADDR_LE <= 2 ^ (SIZE_WIDTH - 1) ->
    set_setting (Some (cstr "id")) len_rd read_cb cb_arg w
    = (0, set_dev
            (called (Call_read_cb (length (bt_dev.id_addr (dev w)))) w)
            (bt_dev.set_id_count
               (bt_dev.set_id_addr (dev w) buf)
               (Z.to_N (to_uint8 ((2 ^ SIZE_WIDTH + L)
                                  / Z.of_nat SIZEOF_BT_ADDR_LE))))).
Proof.
  intros A len_rd read_cb cb_arg w L buf Hon Hpreset Hread Hw HL Hsize.
  rewrite (set_setting_id_branch A len_rd read_cb cb_arg w L buf)
    by assumption.
  assert (Hpow : 2 ^ SIZE_WIDTH = 2 * 2 ^ (SIZE_WIDTH - 1)).
  { replace SIZE_WIDTH with (Z.succ (SIZE_WIDTH - 1)) at 1 by lia.
    apply Z.pow_succ_r. lia. }
  assert (Hconv : to_size_t L = 2 ^ SIZE_WIDTH + L).
  { unfold to_size_t. symmetry.
    apply (Z.mod_unique_pos L (2 ^ SIZE_WIDTH) (-1)); lia. }
  rewrite Hconv.
  assert (Hge : (2 ^ SIZE_WIDTH + L <? Z.of_nat SIZEOF_BT_ADDR_LE) = false)
    by (apply Z.ltb_ge; lia).
  now rewrite Hge.
Qed.

(** The "name" branch, whatever the reader returns: one read of the
    buffer size less one, then the terminator on a non-negative result;
    the return value is 0 on both paths. *)
Lemma set_setting_name_branch :
  forall (A : Type) (len_rd : nat) (read_cb : settings_read_cb A)
         (cb_arg : A) (w : world) (L : Z) (buf : list Z),
    atomic_test_bit (bt_dev.flags (dev w)) BT_DEV_ENABLE = true ->
    CONFIG_BT_DEVICE_NAME_DYNAMIC = true ->
    read_cb cb_arg (bt_dev.name (dev w)) (length (bt_dev.name (dev w)) - 1)%nat
    = (L, buf) ->
    set_setting (Some (cstr "name")) len_rd read_cb cb_arg w
    = (0, set_dev
            (called (Call_read_cb (length (bt_dev.name (dev w)) - 1)%nat) w)
            (bt_dev.set_name (dev w)
               (if L <? 0 then buf else store buf (Z.to_nat L) 0))).
Proof.
  intros A len_rd read_cb cb_arg w L buf Hon Hcfg Hread.
  unfold set_setting. rewrite Hon, Hcfg. cbv beta zeta.
  change (settings_name_next (cstr "name")) with 4%nat.
  change (strncmp (cstr "name") (cstr "id") 4 =? 0) with false.
  change (strncmp (cstr "name") (cstr "name") 4 =? 0) with true.
  cbn [negb andb]. rewrite Hread. now destruct (L <? 0).
Qed.

(** C8, as the code has it: for the key "name" the reader is asked for
    one byte less than the name buffer holds, and the buffer itself is its
    destination.  A result [L >= 0] keeps the bytes the reader stored and
    writes the terminator at index [L].  A negative result makes the
    handler write nothing: the name is left as the reader left it, which
    is the old name only if the reader stored nothing.  In both cases the
    handler returns 0, so the failure is not in its return value; and a
    load pass goes on with the remaining keys after the failed read
    whether or not it gives up on a key's error, since it sees none. *)
Theorem set_setting_name_read :
  forall (A : Type) (len_rd : nat) (read_cb : settings_read_cb A)
         (cb_arg : A) (w : world) (L : Z) (buf : list Z),
    atomic_test_bit (bt_dev.flags (dev w)) BT_DEV_ENABLE = true ->
    CONFIG_BT_DEVICE_NAME_DYNAMIC = true ->
    read_cb cb_arg (bt_dev.name (dev w)) (length (bt_dev.name (dev w)) - 1)%nat
    = (L, buf) ->
    let w1 := called (Call_read_cb (length (bt_dev.name (dev w)) - 1)%nat) w in
    let e := {| entry_name := cstr "name"; entry_len := len_rd;
                entry_read_cb := read_cb; entry_cb_arg := cb_arg |} in
    (0 <= L ->
     set_setting (Some (cstr "name")) len_rd read_cb cb_arg w
     = (0, set_dev w1 (bt_dev.set_name (dev w) (store buf (Z.to_nat L) 0))))
    /\ (L < 0 ->
        set_setting (Some (cstr "name")) len_rd read_cb cb_arg w
        = (0, set_dev w1 (bt_dev.set_name (dev w) buf)))
    /\ (L < 0 ->
        forall (stop : Z -> bool) (rest : list (entry A)),
          stop 0 = false ->
          settings_load_until stop (e :: rest) w
          = (0 :: fst (settings_load_until stop rest
                         (set_dev w1 (bt_dev.set_name (dev w) buf))),
             snd (settings_load_until stop rest
                    (set_dev w1 (bt_dev.set_name (dev w) buf)))))
    /\ (L < 0 -> forall rest : list (entry A),
        settings_load (e :: rest) w
        = (0 :: fst (settings_load rest
                       (set_dev w1 (bt_dev.set_name (dev w) buf))),
           snd (settings_load rest
                  (set_dev w1 (bt_dev.set_name (dev w) buf))))).
Proof.
  intros A len_rd read_cb cb_arg w L buf Hon Hcfg Hread w1 e.
  pose proof (set_setting_name_branch A len_rd read_cb cb_arg w L buf
                Hon Hcfg Hread) as Hbr.
  fold w1 in Hbr.
  assert (Hneg : L < 0 ->
          set_setting (Some (cstr "name")) len_rd read_cb cb_arg w
          = (0, set_dev w1 (bt_dev.set_name (dev w) buf))).
  { intros HL. rewrite Hbr. apply Z.ltb_lt in HL. now rewrite HL. }
  repeat split.
  - intros HL. rewrite Hbr.
    assert (HL' : (L <? 0) = false) by (apply Z.ltb_ge; lia).
    now rewrite HL'.
  - exact Hneg.
  - intros HL stop rest Hstop.
    cbn [settings_load_until e entry_name entry_len
         entry_read_cb entry_cb_arg].
    rewrite (Hneg HL), Hstop.
    now destruct (settings_load_until stop rest _).
  - intros HL rest. cbn [settings_load e entry_name entry_len
                          entry_read_cb entry_cb_arg].
    rewrite (Hneg HL).
    now destruct (settings_load rest _).
Qed.

(** ** The commit handler *)

Lemma commit_store_id_result :
  forall (w w' : world) (r : Z),
    commit_store_id w = (r, w') ->
    r = 0 /\ bt_dev.id_count (dev w') = bt_dev.id_count (dev w).
Proof.
  intros w w' r. unfold commit_store_id, atomic_test_and_clear_bit.
  destruct (Z.testbit _ _); intros H; inversion H; subst; now split.
Qed.

Lemma commit_finalize_result :
  forall (w w' : world) (r : Z),
    commit_finalize w = (r, w') ->
    r = 0 /\ bt_dev.id_count (dev w') = bt_dev.id_count (dev w).
Proof.
  intros w w' r. unfold commit_finalize.
  destruct (negb _); intros H; apply commit_store_id_result in H;
    destruct H as [-> H]; split; auto.
Qed.

Lemma commit_random_id_result :
  (forall d d', bt_setup_random_id_addr d = (0, d') ->
                bt_dev.id_count d' <> 0%N) ->
  forall (w w' : world),
    commit_random_id w = (0, w') -> bt_dev.id_count (dev w') <> 0%N.
Proof.
  intros Hrandom w w'. unfold commit_random_id, invoke.
  destruct (N.eqb_spec (bt_dev.id_count (dev w)) 0) as [Hzero | Hsome].
  - destruct (bt_setup_random_id_addr (dev w)) as [err d1] eqn:Hgen.
    destruct (Z.eqb_spec err 0) as [-> | Herr]; cbn [negb].
    + intros H. apply commit_finalize_result in H. destruct H as [_ ->].
      cbn. eauto.
    + intros H. inversion H. congruence.
  - intros H. apply commit_finalize_result in H. destruct H as [_ ->].
    exact Hsome.
Qed.

(** C3: with the stack enabled, and [w0] the state after the name step:
    when the identity count is zero the public-type generation is called
    first, and its error code is returned with nothing after it; when it
    succeeds and the count is still zero the random-type generation is
    called, and its error code is returned with nothing after it; and if a
    successful random-type generation leaves a nonzero count, a return
    value of 0 comes with an identity count of at least 1. *)
Theorem commit_settings_identity :
  forall w : world,
    atomic_test_bit (bt_dev.flags (dev w)) BT_DEV_ENABLE = true ->
    let w0 := commit_name w in
    (forall (err : Z) (d1 : bt_dev.t),
        bt_dev.id_count (dev w0) = 0%N ->
        bt_setup_public_id_addr (dev w0) = (err, d1) ->
        err <> 0 ->
        commit_settings w
        = (err, set_dev (called Call_bt_setup_public_id_addr w0) d1))
    /\ (forall (err : Z) (d1 d2 : bt_dev.t),
        bt_dev.id_count (dev w0) = 0%N ->
        bt_setup_public_id_addr (dev w0) = (0, d1) ->
        bt_dev.id_count d1 = 0%N ->
        bt_setup_random_id_addr d1 = (err, d2) ->
        err <> 0 ->
        commit_settings w
        = (err, set_dev
                  (called Call_bt_setup_random_id_addr
                     (set_dev (called Call_bt_setup_public_id_addr w0) d1))
                  d2))
    /\ ((forall d d', bt_setup_random_id_addr d = (0, d') ->
                      bt_dev.id_count d' <> 0%N) ->
        forall w' : world,
          commit_settings w = (0, w') ->
          (1 <= bt_dev.id_count (dev w'))%N).
Proof.
  intros w Hon w0. unfold commit_settings. rewrite Hon. cbn [negb].
  fold w0. unfold commit_public_id, invoke.
  repeat split.
  - intros err d1 Hzero Hgen Herr. rewrite Hzero, Hgen. cbn [N.eqb].
    apply Z.eqb_neq in Herr. now rewrite Herr.
  - intros err d1 d2 Hzero Hpub Hstill Hgen Herr.
    rewrite Hzero, Hpub. cbn [N.eqb Z.eqb negb].
    unfold commit_random_id, invoke. cbn [dev set_dev called].
    rewrite Hstill, Hgen. cbn [N.eqb].
    apply Z.eqb_neq in Herr. now rewrite Herr.
  - intros Hrandom w' Hret.
    enough (bt_dev.id_count (dev w') <> 0%N) by lia.
    destruct (N.eqb_spec (bt_dev.id_count (dev w0)) 0) as [Hzero | Hsome].
    + destruct (bt_setup_public_id_addr (dev w0)) as [err d1].
      destruct (Z.eqb_spec err 0) as [-> | Herr]; cbn [negb] in Hret.
      * eapply commit_random_id_result; eauto.
      * inversion Hret. congruence.
    + eapply commit_random_id_result; eauto.
Qed.

End HostProperties.

(** * The claims on concrete inputs *)

(** ** Key codec *)

(** The example of the specification: bytes 01 02 03 04 05 06, type 0. *)
Example encode_key_example :
  c_str (bt_settings_encode_key (repeat 255 40) 40 (cstr "keys")
           {| type := 0; a := {| val := [1; 2; 3; 4; 5; 6] |} |}
           (Some (cstr "leaf")))
  = cstr "bt/keys/0605040302010/leaf".
Proof. reflexivity. Qed.

(** C1 at the address ff:00:7f:80:0a:a0 (stored least significant byte
    first), type 1, in a 32-byte buffer followed by two more bytes. *)
Lemma encode_decode_roundtrip_witness :
  bt_settings_decode_key
    (firstn 13
       (skipn (3 + strlen (cstr "ccc") + 1)
          (c_str (bt_settings_encode_key (repeat 255 34) 32 (cstr "ccc")
                    {| type := 1;
                       a := {| val := [160; 10; 128; 127; 0; 255] |} |}
                    None))))
    {| type := 7; a := {| val := [9; 9; 9; 9; 9; 9] |} |}
  = (0, {| type := 1; a := {| val := [160; 10; 128; 127; 0; 255] |} |}).
Proof.
  apply encode_decode_roundtrip.
  - reflexivity.
  - repeat constructor; cbn; lia.
  - right. reflexivity.
  - cbn. lia.
  - cbn. lia.
  - reflexivity.
Defined.

(** C2 as stated fails: twelve characters that are not hex digits followed
    by the digit ['1'] are accepted with return value 0, and the record is
    modified: its type becomes 1. *)
Lemma bt_settings_decode_key_non_hex :
  Forall (fun c => char2hex c = None) (firstn 12 (cstr "zzzzzzzzzzzz1"))
  /\ fst (bt_settings_decode_key (cstr "zzzzzzzzzzzz1")
            {| type := 0; a := {| val := [1; 2; 3; 4; 5; 6] |} |})
     = 0
  /\ type (snd (bt_settings_decode_key (cstr "zzzzzzzzzzzz1")
                  {| type := 0; a := {| val := [1; 2; 3; 4; 5; 6] |} |}))
     = 1.
Proof.
  repeat split. repeat constructor.
Qed.

(** The amended C2 at a key of twelve characters. *)
Lemma bt_settings_decode_key_rejects_witness :
  bt_settings_decode_key (cstr "060504030201")
    {| type := 1; a := {| val := [1; 2; 3; 4; 5; 6] |} |}
  = (- EINVAL, {| type := 1; a := {| val := [1; 2; 3; 4; 5; 6] |} |}).
Proof.
  apply bt_settings_decode_key_rejects. left. cbn. lia.
Defined.

(** C5 fails at capacity 9 with subsystem "s" and the address
    ff:ff:ff:ff:ff:ff of type 0: after one address byte no further byte
    fits, yet the type digit does, so the string ends in "ff0" where the
    full encoding goes on with "fff". *)
Theorem bt_settings_encode_key_truncated_type_digit :
  c_str (bt_settings_encode_key (repeat 255 9) 9 (cstr "s")
           {| type := 0; a := {| val := repeat 255 6 |} |} None)
  = cstr "bt/s/ff0"
  /\ spec_key_text (cstr "s")
       {| type := 0; a := {| val := repeat 255 6 |} |} None
     = cstr "bt/s/ffffffffffff0"
  /\ firstn 8 (cstr "bt/s/ffffffffffff0") <> cstr "bt/s/ff0".
Proof.
  repeat split. discriminate.
Qed.

(** ** Restore handler *)

(** C10 with a stored identity offered before [bt_enable()]. *)
Lemma set_setting_before_enable_witness :
  set_setting (target := target_ilp32) (Some (cstr "id")) 7
    read_stored [1; 1; 2; 3; 4; 5; 6] (world_of dev_disabled)
  = (0, world_of dev_disabled).
Proof.
  apply (set_setting_before_enable (target := target_ilp32)). reflexivity.
Defined.

(** C7 with a three-byte payload for the two-byte appearance. *)
Lemma set_setting_appearance_wrong_length_witness :
  set_setting (target := target_ilp32) (Some (cstr "appearance")) 3
    read_stored [1; 2; 3] (world_of dev_enabled)
  = (- EINVAL, world_of dev_enabled).
Proof.
  apply (set_setting_appearance_wrong_length (target := target_ilp32)).
  - reflexivity.
  - reflexivity.
  - cbn. lia.
Defined.

(** C8 as stated fails twice on a reader that stores "XYZ" and then
    fails with -5: the handler returns 0 for the key "name", so the
    failure is not in its return value, and the name "Zephyr" is not
    untouched, it reads "XYZhyr". *)
Lemma set_setting_name_read_failure :
  fst (read_partial_failing tt (bt_dev.name dev_with_identity) 7%nat) < 0
  /\ fst (set_setting (target := target_ilp32) (Some (cstr "name")) 6
            read_partial_failing tt (world_of dev_with_identity))
     = 0
  /\ c_str (bt_dev.name dev_with_identity) = cstr "Zephyr"
  /\ c_str (bt_dev.name
              (dev (snd (set_setting (target := target_ilp32)
                           (Some (cstr "name")) 6
                           read_partial_failing tt
                           (world_of dev_with_identity)))))
     = cstr "XYZhyr".
Proof.
  split; [reflexivity |]. repeat split.
Qed.

(** The amended C8 at the same failing read: return value 0, and the name
    buffer as the reader left it. *)
Lemma set_setting_name_read_witness :
  set_setting (target := target_ilp32) (Some (cstr "name")) 6
    read_partial_failing tt (world_of dev_with_identity)
  = (0, set_dev (called (Call_read_cb 7) (world_of dev_with_identity))
          (bt_dev.set_name dev_with_identity
             ([88; 89; 90] ++ skipn 3 (bt_dev.name dev_with_identity)))).
Proof.
  refine (proj1 (proj2 (set_setting_name_read (target := target_ilp32)
                          unit 6 read_partial_failing tt
                          (world_of dev_with_identity) (-5)
                          ([88; 89; 90]
                             ++ skipn 3 (bt_dev.name dev_with_identity))
                          eq_refl eq_refl eq_refl)) _).
  lia.
Defined.

(** C4 fails on a read failure: with [len = -5] the comparison
    [len < sizeof(bt_dev.id_addr[0])] is made in [size_t], where [-5] is
    4294967291, so the branch that zeroes the array is not taken; the
    count becomes [(uint8_t)(4294967291 / 7) = 35] and the array keeps its
    bytes. *)
Theorem set_setting_id_read_failure :
  set_setting (target := target_ilp32) (Some (cstr "id")) 7
    read_failing tt
    (world_of (bt_dev.set_id_addr dev_enabled (repeat 170 14)))
  = (0, set_dev
          (called (Call_read_cb 14)
             (world_of (bt_dev.set_id_addr dev_enabled (repeat 170 14))))
          (bt_dev.set_id_count
             (bt_dev.set_id_addr dev_enabled (repeat 170 14)) 35%N)).
Proof. reflexivity. Qed.

(** One record and a half: ten stored bytes with 7-byte records give an
    identity count of 1. *)
Example set_setting_id_one_and_a_half :
  bt_dev.id_count
    (dev (snd (set_setting (target := target_ilp32) (Some (cstr "id")) 10
                 read_stored [1; 1; 2; 3; 4; 5; 6; 0; 7; 8]
                 (world_of dev_enabled))))
  = 1%N.
Proof. reflexivity. Qed.

(** A key that starts no known name is not found and changes nothing. *)
Example set_setting_unknown_key :
  set_setting (target := target_ilp32) (Some (cstr "idx")) 7
    read_stored [1; 1; 2; 3; 4; 5; 6] (world_of dev_enabled)
  = (- ENOENT, world_of dev_enabled).
Proof. reflexivity. Qed.

(** C6 fails on a first segment that is a proper prefix of a known name:
    the key "i" is routed to the handler of "id", which returns 0 and sets
    the identity count from the payload. *)
Theorem set_setting_prefix_of_id :
  set_setting (target := target_ilp32) (Some (cstr "i")) 7
    read_stored [1; 1; 2; 3; 4; 5; 6] (world_of dev_enabled)
  = (0, set_dev
          (called (Call_read_cb 14) (world_of dev_enabled))
          (bt_dev.set_id_count
             (bt_dev.set_id_addr dev_enabled
                ([1; 1; 2; 3; 4; 5; 6] ++ repeat 0 7)) 1%N)).
Proof. reflexivity. Qed.

(** ** Commit handler *)

(** C9 on the device before [bt_enable()]. *)
Lemma commit_settings_before_enable_witness :
  commit_settings (target := target_ilp32) (hci := hci_random_only)
    (world_of dev_disabled)
  = (0, world_of dev_disabled).
Proof.
  apply (commit_settings_before_enable (target := target_ilp32)).
  reflexivity.
Defined.

(** C3 on the enabled device with no identity, a controller without a
    public address and a random generation that succeeds. *)
Lemma commit_settings_identity_witness :
  (1 <= bt_dev.id_count
          (dev (snd (commit_settings (target := target_ilp32)
                       (hci := hci_random_only) (world_of dev_enabled)))))%N.
Proof.
  refine (proj2 (proj2 (commit_settings_identity (target := target_ilp32)
                          (hci := hci_random_only) (world_of dev_enabled)
                          eq_refl)) _ _ _).
  - intros d d' H. cbn in H. inversion H. cbn. discriminate.
  - reflexivity.
Defined.

(** * Further properties of the key codec *)

(** ** The two builds of the encoder *)

Lemma store_chars_overlay :
  forall cs m off,
    (off + length cs <= length m)%nat ->
    store_chars m off cs = overlay m off cs.
Proof.
  induction cs as [| c cs IH]; intros m off H; cbn [store_chars].
  - unfold overlay. cbn. rewrite Nat.add_0_r. symmetry. apply firstn_skipn.
  - cbn [length] in H.
    rewrite IH by (rewrite store_length; lia).
    rewrite store_overlay by lia.
    replace (S off) with (off + length [c])%nat by (cbn; lia).
    now rewrite overlay_overlay by (cbn; lia).
Qed.

Lemma no_nul_firstn : forall n s, no_nul s -> no_nul (firstn n s).
Proof.
  unfold no_nul. intros n s H. rewrite Forall_forall in *.
  intros c Hc. apply H.
  rewrite <- (firstn_skipn n s). apply in_or_app. now left.
Qed.

(** The string [snprintk] leaves: the text cut to the room before the
    terminator. *)
Lemma snprintk_c_str :
  forall str size text,
    (0 < size <= length str)%nat -> no_nul text ->
    c_str (snprintk str size text) = firstn (size - 1) text.
Proof.
  intros str [| room] text Hsize Htext; [lia |].
  cbn [snprintk Nat.sub]. rewrite Nat.sub_0_r.
  assert (Hlen : length (firstn room text) = Nat.min room (length text))
    by apply length_firstn.
  rewrite store_chars_overlay by lia.
  rewrite <- Hlen.
  rewrite store_overlay by (rewrite overlay_length; lia).
  replace (length (firstn room text))
    with (0 + length (firstn room text))%nat at 1 by lia.
  rewrite overlay_overlay by lia.
  unfold overlay. cbn [firstn app].
  rewrite <- app_assoc.
  apply c_str_app_nul. now apply no_nul_firstn.
Qed.

Lemma fmt_u_digit :
  forall t, 0 <= t < 10 -> fmt_u t = [char_of "0" + t].
Proof.
  intros t Ht. unfold fmt_u. cbn [fmt_u_digits].
  rewrite Z.mod_small by lia.
  rewrite Z.div_small by lia. reflexivity.
Qed.

(** For a six-byte address of type 0 to 9 the text of the format is the
    text of the grammar. *)
Lemma printk_key_text_spec :
  forall subsys addr key,
    length (val (a addr)) = 6%nat -> 0 <= type addr < 10 ->
    printk_key_text subsys addr
    ++ match key with Some k => cstr "/" ++ c_str k | None => [] end
    = spec_key_text subsys addr key.
Proof.
  intros subsys [t [v]] key Hv Ht. cbn [type a val] in *.
  destruct v as [| b0 [| b1 [| b2 [| b3 [| b4 [| b5 [| ? ?]]]]]]];
    try discriminate Hv.
  unfold printk_key_text, spec_key_text, spec_addr_text, spec_addr_hex,
    fmt_02x, load.
  cbn [type a val nth rev flat_map].
  rewrite fmt_u_digit by assumption.
  cbn [app]. rewrite <- !app_assoc. reflexivity.
Qed.

Lemma encode_key_printk_string :
  forall (m : list Z) (path_size : nat) (subsys : list Z)
         (addr : bt_addr_le_t) (key : option (list Z)),
    length (val (a addr)) = 6%nat ->
    Forall is_byte (val (a addr)) ->
    type addr = 0 \/ type addr = 1 ->
    (0 < path_size <= length m)%nat ->
    c_str (bt_settings_encode_key_printk m path_size subsys addr key)
    = firstn (path_size - 1) (spec_key_text subsys addr key).
Proof.
  intros m ps subsys addr key Hv Hbytes Ht Hps.
  pose proof (printk_key_text_spec subsys addr key Hv ltac:(lia)) as Htext.
  pose proof (spec_key_text_no_nul subsys addr key Hbytes Ht) as Hnn.
  unfold bt_settings_encode_key_printk.
  destruct key as [k |].
  - rewrite snprintk_c_str by (rewrite ?Htext; assumption).
    now rewrite Htext.
  - rewrite app_nil_r in Htext.
    rewrite snprintk_c_str by (rewrite ?Htext; assumption).
    now rewrite Htext.
Qed.

Lemma store_chars_length :
  forall cs m off, length (store_chars m off cs) = length m.
Proof.
  induction cs as [| c cs IH]; intros m off; cbn [store_chars];
    [reflexivity |].
  now rewrite IH, store_length.
Qed.

Lemma store_chars_skipn :
  forall cs m off k,
    (off + length cs <= k)%nat ->
    skipn k (store_chars m off cs) = skipn k m.
Proof.
  induction cs as [| c cs IH]; intros m off k H; cbn [store_chars];
    [reflexivity |].
  cbn [length] in H. rewrite IH by lia. apply skipn_store. lia.
Qed.

Lemma snprintk_frame :
  forall str size text,
    length (snprintk str size text) = length str
    /\ skipn size (snprintk str size text) = skipn size str.
Proof.
  intros str [| room] text; cbn [snprintk]; [now split |].
  rewrite store_length, store_chars_length. split; [reflexivity |].
  rewrite skipn_store by lia.
  apply store_chars_skipn. rewrite length_firstn. lia.
Qed.

(** X4: the build with [CONFIG_BT_SETTINGS_USE_PRINTK] cuts the key text
    cleanly.  For every capacity of at least 1 and a six-byte address
    with type 0 or 1, the string it leaves is the first [path_size - 1]
    characters of the text of the grammar, and no byte behind the first
    [path_size] bytes changes. *)
Theorem bt_settings_encode_key_printk_prefix :
  forall (m : list Z) (path_size : nat) (subsys : list Z)
         (addr : bt_addr_le_t) (key : option (list Z)),
    length (val (a addr)) = 6%nat ->
    Forall is_byte (val (a addr)) ->
    type addr = 0 \/ type addr = 1 ->
    (0 < path_size <= length m)%nat ->
    let path := bt_settings_encode_key_printk m path_size subsys addr key in
    c_str path = firstn (path_size - 1) (spec_key_text subsys addr key)
    /\ length path = length m
    /\ skipn path_size path = skipn path_size m.
Proof.
  intros m ps subsys addr key Hv Hbytes Ht Hps path. split.
  - now apply encode_key_printk_string.
  - unfold path, bt_settings_encode_key_printk.
    destruct key; apply snprintk_frame.
Qed.

(** X5: when the buffer is longer than the key, both builds of
    [bt_settings_encode_key] leave the same string, whatever the memory
    held before. *)
Theorem bt_settings_encode_key_builds_agree :
  forall (m m' : list Z) (path_size : nat) (subsys : list Z)
         (addr : bt_addr_le_t) (key : option (list Z)),
    length (val (a addr)) = 6%nat ->
    Forall is_byte (val (a addr)) ->
    type addr = 0 \/ type addr = 1 ->
    (length (spec_key_text subsys addr key) < path_size)%nat ->
    (path_size <= length m)%nat -> (path_size <= length m')%nat ->
    c_str (bt_settings_encode_key_printk m path_size subsys addr key)
    = c_str (bt_settings_encode_key m' path_size subsys addr key).
Proof.
  intros m m' ps subsys addr key Hv Hbytes Ht Hfit Hm Hm'.
  rewrite encode_key_printk_string by (assumption || lia).
  rewrite bt_settings_encode_key_text by assumption.
  apply firstn_all2. lia.
Qed.

(** X2: a buffer longer than the key holds the key exactly.  The string
    left in it is the text of the grammar, ["bt/" <subsys> "/" <12 hex
    characters> <type digit>] and ["/" <key>] when a key is given; its
    length is the sum of the lengths of these parts; every byte of the
    buffer behind the text is NUL; and the memory behind the buffer is
    unchanged. *)
Theorem bt_settings_encode_key_exact :
  forall (m : list Z) (path_size : nat) (subsys : list Z)
         (addr : bt_addr_le_t) (key : option (list Z)),
    length (val (a addr)) = 6%nat ->
    Forall is_byte (val (a addr)) ->
    type addr = 0 \/ type addr = 1 ->
    (3 + strlen subsys + 1 + 13
     + match key with Some k => 1 + strlen k | None => 0 end
     < path_size)%nat ->
    (path_size <= length m)%nat ->
    let path := bt_settings_encode_key m path_size subsys addr key in
    c_str path = spec_key_text subsys addr key
    /\ strlen path
        = (3 + strlen subsys + 1 + 13
           + match key with Some k => 1 + strlen k | None => 0 end)%nat
    /\ (forall i, (strlen path <= i < path_size)%nat -> load path i = 0)
    /\ skipn path_size path = skipn path_size m.
Proof.
  intros m ps subsys addr key Hv Hbytes Ht Hfit Hm path.
  pose proof (spec_key_text_length subsys addr key Hv) as Hlen.
  rewrite <- Hlen in Hfit. rewrite <- Hlen. clear Hlen.
  set (text := spec_key_text subsys addr key) in *.
  assert (Hmem : path = text ++ repeat 0 (ps - length text) ++ skipn ps m)
    by (apply bt_settings_encode_key_fits; assumption).
  assert (Hnn : no_nul text) by now apply spec_key_text_no_nul.
  assert (Hstr : strlen path = length text)
    by (rewrite Hmem; apply strlen_zone; [assumption | lia]).
  repeat split.
  - rewrite Hmem. apply c_str_zone; [assumption | lia].
  - exact Hstr.
  - intros i Hi. rewrite Hstr in Hi. rewrite Hmem. unfold load.
    rewrite app_nth2 by lia.
    rewrite app_nth1 by (rewrite repeat_length; lia).
    apply nth_repeat.
  - rewrite Hmem.
    rewrite (skipn_app_plus text _ _ (ps - length text)) by lia.
    rewrite (skipn_app_plus (repeat 0 (ps - length text)) _ _ 0)
      by (rewrite repeat_length; lia).
    apply skipn_0.
Qed.

(** ** The encoding determines the address *)

Lemma spec_key_text_addr :
  forall subsys addr key,
    length (val (a addr)) = 6%nat ->
    firstn 13 (skipn (3 + strlen subsys + 1) (spec_key_text subsys addr key))
    = spec_addr_text addr.
Proof.
  intros subsys addr key Hv. unfold spec_key_text.
  rewrite (app_assoc (cstr "bt/")), (app_assoc _ (cstr "/")).
  rewrite (skipn_app_plus _ _ _ 0)
    by (rewrite !length_app, c_str_length;
        cbn [length cstr map list_ascii_of_string]; lia).
  rewrite skipn_0.
  apply firstn_app_exact. unfold spec_addr_text.
  rewrite length_app, spec_addr_hex_length, Hv. reflexivity.
Qed.

(** X3: two addresses (six bytes each, type 0 or 1) whose keys under the
    same subsystem encode to the same string are equal, bytes and type;
    the leaf keys and the buffers need not be the same. *)
Theorem bt_settings_encode_key_injective :
  forall (m1 m2 : list Z) (size1 size2 : nat) (subsys : list Z)
         (addr1 addr2 : bt_addr_le_t) (key1 key2 : option (list Z)),
    length (val (a addr1)) = 6%nat -> length (val (a addr2)) = 6%nat ->
    Forall is_byte (val (a addr1)) -> Forall is_byte (val (a addr2)) ->
    type addr1 = 0 \/ type addr1 = 1 -> type addr2 = 0 \/ type addr2 = 1 ->
    (length (spec_key_text subsys addr1 key1) < size1 <= length m1)%nat ->
    (length (spec_key_text subsys addr2 key2) < size2 <= length m2)%nat ->
    c_str (bt_settings_encode_key m1 size1 subsys addr1 key1)
    = c_str (bt_settings_encode_key m2 size2 subsys addr2 key2) ->
    addr1 = addr2.
Proof.
  intros m1 m2 s1 s2 subsys addr1 addr2 key1 key2
         Hv1 Hv2 Hb1 Hb2 Ht1 Ht2 Hf1 Hf2 Heq.
  rewrite !bt_settings_encode_key_text in Heq by (assumption || lia).
  apply (f_equal (fun t => firstn 13 (skipn (3 + strlen subsys + 1) t)))
    in Heq.
  rewrite !spec_key_text_addr in Heq by assumption.
  pose proof (bt_settings_decode_key_text addr1 addr1 Hv1 Hb1 Ht1 Hv1) as H1.
  pose proof (bt_settings_decode_key_text addr2 addr1 Hv2 Hb2 Ht2 Hv1) as H2.
  rewrite Heq in H1. congruence.
Qed.

(** ** The decoder reads the first segment only *)

Lemma settings_name_next_firstn :
  forall key,
    settings_name_next (firstn (settings_name_next key) key)
    = settings_name_next key.
Proof.
  induction key as [| c key IH]; [reflexivity |].
  cbn [settings_name_next].
  destruct ((c =? 0) || (c =? char_of "/")) eqn:E; [reflexivity |].
  cbn [firstn settings_name_next]. rewrite E. now f_equal.
Qed.

Lemma hex2bin_pair_ext :
  forall hex hex' buf off,
    load hex 0 = load hex' 0 -> load hex 1 = load hex' 1 ->
    hex2bin hex 2 buf off 1 = hex2bin hex' 2 buf off 1.
Proof.
  intros hex hex' buf off H0 H1. unfold hex2bin.
  cbn [Nat.div Nat.modulo Nat.divmod Nat.add fst snd
       Nat.ltb Nat.leb Nat.eqb Nat.sub hex2bin_loop].
  rewrite H0, H1.
  destruct (char2hex (load hex' 0)); [| reflexivity].
  destruct (char2hex (load hex' 1)); reflexivity.
Qed.

Lemma decode_addr_ext :
  forall n i key key' v,
    (forall j, (j < 2 * (i + n))%nat -> load key j = load key' j) ->
    decode_addr n i key v = decode_addr n i key' v.
Proof.
  induction n as [| n IH]; intros i key key' v H; [reflexivity |].
  cbn [decode_addr].
  rewrite (hex2bin_pair_ext (skipn (i * 2) key) (skipn (i * 2) key')).
  - destruct (hex2bin _ 2 v (5 - i) 1) as [v' r].
    apply IH. intros j Hj. apply H. lia.
  - rewrite <- !load_skipn. apply H. lia.
  - rewrite <- !load_skipn. apply H. lia.
Qed.

(** X6: the decoder looks at the first path segment only.  When that
    segment has 13 characters, decoding the key gives the same return
    value and the same record as decoding those 13 characters alone, so a
    leaf key behind the address plays no part. *)
Theorem bt_settings_decode_key_segment :
  forall (key : list Z) (addr : bt_addr_le_t),
    settings_name_next key = 13%nat ->
    bt_settings_decode_key key addr
    = bt_settings_decode_key (firstn 13 key) addr.
Proof.
  intros key addr Hseg. unfold bt_settings_decode_key.
  pose proof (settings_name_next_firstn key) as Hcut. rewrite Hseg in Hcut.
  rewrite Hseg, Hcut.
  assert (Hload : forall j, (j < 13)%nat ->
                            load key j = load (firstn 13 key) j).
  { intros j Hj. unfold load. rewrite nth_firstn.
    apply Nat.ltb_lt in Hj. now rewrite Hj. }
  rewrite <- (Hload 12%nat) by lia.
  rewrite (decode_addr_ext 6 0 key (firstn 13 key))
    by (intros j Hj; apply Hload; lia).
  reflexivity.
Qed.

Lemma store_preserves_length_hex2bin_loop :
  forall n hex buf off,
    length (fst (hex2bin_loop n hex buf off)) = length buf.
Proof.
  induction n as [| n IH]; intros hex buf off; cbn [hex2bin_loop];
    [reflexivity |].
  destruct (char2hex (load hex 0)); [| reflexivity].
  destruct (char2hex (load hex 1)).
  - rewrite IH. now rewrite !store_length.
  - cbn. now rewrite store_length.
Qed.

Lemma hex2bin_length :
  forall hex hexlen buf off buflen,
    length (fst (hex2bin hex hexlen buf off buflen)) = length buf.
Proof.
  intros hex hexlen buf off buflen. unfold hex2bin.
  destruct (buflen <? hexlen / 2 + hexlen mod 2)%nat; [reflexivity |].
  destruct (hexlen mod 2 =? 1)%nat.
  - destruct (char2hex (load hex 0)); [| reflexivity].
    pose proof (store_preserves_length_hex2bin_loop (hexlen / 2)
                  (skipn 1 hex) (store buf off z) (S off)) as H.
    destruct (hex2bin_loop _ _ _ _) as [b [|]]; cbn [fst] in *;
      now rewrite H, store_length.
  - pose proof (store_preserves_length_hex2bin_loop (hexlen / 2)
                  hex buf off) as H.
    destruct (hex2bin_loop _ _ _ _) as [b [|]]; cbn [fst] in *;
      exact H.
Qed.

Lemma decode_addr_length :
  forall n i key v, length (decode_addr n i key v) = length v.
Proof.
  induction n as [| n IH]; intros i key v; cbn [decode_addr];
    [reflexivity |].
  pose proof (hex2bin_length (skipn (i * 2) key) 2 v (5 - i) 1) as H.
  destruct (hex2bin (skipn (i * 2) key) 2 v (5 - i) 1) as [v' r].
  rewrite IH. exact H.
Qed.

(** X7: the decoder returns 0 or [-EINVAL] and nothing else; it returns 0
    exactly when the first segment has 13 characters and the 13th is
    ['0'] or ['1'].  Then the type of the record is the value of that
    digit, whatever it was before, and the address keeps its size. *)
Theorem bt_settings_decode_key_result :
  forall (key : list Z) (addr : bt_addr_le_t),
    (fst (bt_settings_decode_key key addr) = 0
     \/ fst (bt_settings_decode_key key addr) = - EINVAL)
    /\ (fst (bt_settings_decode_key key addr) = 0
        <-> settings_name_next key = 13%nat
            /\ (load key 12 = char_of "0" \/ load key 12 = char_of "1"))
    /\ (fst (bt_settings_decode_key key addr) = 0 ->
        type (snd (bt_settings_decode_key key addr))
        = load key 12 - char_of "0"
        /\ length (val (a (snd (bt_settings_decode_key key addr))))
           = length (val (a addr))).
Proof.
  intros key addr. unfold bt_settings_decode_key.
  destruct (Nat.eqb_spec (settings_name_next key) 13) as [Hlen | Hlen];
    cbn [negb].
  - destruct (Z.eqb_spec (load key 12) (char_of "0")) as [E0 | E0].
    + cbn [fst snd type a val]. rewrite decode_addr_length, E0.
      repeat split; auto.
    + destruct (Z.eqb_spec (load key 12) (char_of "1")) as [E1 | E1].
      * cbn [fst snd type a val]. rewrite decode_addr_length, E1.
        repeat split; auto.
      * cbn [fst snd]. repeat split; auto; try discriminate.
        intros [_ [H | H]]; contradiction.
  - cbn [fst snd]. repeat split; auto; try discriminate.
    intros [H _]. contradiction.
Qed.

(** * Further properties of the handlers *)

Section HostFurther.
Context {target : Target} {hci : HciCore}.

(** ** Routing *)

Lemma strncmp_app :
  forall (seg rest lit : list Z),
    strncmp (seg ++ rest) lit (length seg) = strncmp seg lit (length seg).
Proof.
  induction seg as [| c seg IH]; intros rest lit; [reflexivity |].
  cbn [app length strncmp hd tl]. now rewrite IH.
Qed.

Lemma settings_name_next_app :
  forall (seg rest : list Z),
    Forall plain seg ->
    settings_name_next (seg ++ char_of "/" :: rest) = length seg.
Proof.
  induction seg as [| c seg IH]; intros rest H; [reflexivity |].
  inversion H as [| ? ? [Hc0 Hc1] Hseg]; subst.
  cbn [app settings_name_next length].
  apply Z.eqb_neq in Hc0, Hc1. rewrite Hc0, Hc1. cbn [orb].
  f_equal. now apply IH.
Qed.

(** X8: the restore handler looks at the first path segment of the name
    only: a name with further segments behind a ["/"] is handled exactly
    as its first segment alone. *)
Theorem set_setting_first_segment :
  forall (A : Type) (seg rest : list Z) (len_rd : nat)
         (read_cb : settings_read_cb A) (cb_arg : A) (w : world),
    Forall plain seg ->
    set_setting (Some (seg ++ char_of "/" :: rest)) len_rd read_cb cb_arg w
    = set_setting (Some seg) len_rd read_cb cb_arg w.
Proof.
  intros A seg rest len_rd read_cb cb_arg w Hseg.
  unfold set_setting.
  rewrite settings_name_next_app, settings_name_next_plain by assumption.
  now rewrite !strncmp_app.
Qed.

(** X9: with the stack enabled, a NULL name, and a name whose first
    segment is an initial part of none of "id", "name", "appearance" and
    "irk", yield [-ENOENT]; the device state is unchanged and the value
    reader is not called. *)
Theorem set_setting_not_found :
  forall (A : Type) (name : option (list Z)) (len_rd : nat)
         (read_cb : settings_read_cb A) (cb_arg : A) (w : world),
    atomic_test_bit (bt_dev.flags (dev w)) BT_DEV_ENABLE = true ->
    (forall nm lit,
        name = Some nm -> In lit known_names ->
        firstn (settings_name_next nm) nm
        <> firstn (settings_name_next nm) lit) ->
    set_setting name len_rd read_cb cb_arg w = (- ENOENT, w).
Proof.
  intros A [nm |] len_rd read_cb cb_arg w Hon Hno.
  - apply set_setting_unknown; [assumption |].
    intros lit Hin Hcmp. apply (Hno nm lit eq_refl Hin).
    apply strncmp_segment; [| assumption].
    cbn [In] in Hin.
    destruct Hin as [<- | [<- | [<- | [<- | []]]]];
      repeat constructor; discriminate.
  - unfold set_setting. now rewrite Hon.
Qed.

(** X10: identities given before the load supersede the stored ones.  With
    the stack enabled and [BT_DEV_PRESET_ID] set, a name routed to "id"
    returns 0 without calling the value reader and without touching the
    device state. *)
Theorem set_setting_id_preset :
  forall (A : Type) (name : list Z) (len_rd : nat)
         (read_cb : settings_read_cb A) (cb_arg : A) (w : world),
    atomic_test_bit (bt_dev.flags (dev w)) BT_DEV_ENABLE = true ->
    atomic_test_bit (bt_dev.flags (dev w)) BT_DEV_PRESET_ID = true ->
    firstn (settings_name_next name) name
    = firstn (settings_name_next name) (cstr "id") ->
    set_setting (Some name) len_rd read_cb cb_arg w = (0, w).
Proof.
  intros A name len_rd read_cb cb_arg w Hon Hpreset Hid.
  apply strncmp_segment in Hid; [| repeat constructor; discriminate].
  unfold set_setting. rewrite Hon, Hpreset. cbv beta zeta.
  now rewrite Hid.
Qed.

(** ** Restoring the identities from stored bytes *)

(** X11: the key "id" with a value reader bound to stored bytes [data], on
    an enabled device without preset identities.  Let [n] be the number
    of bytes that fit the identity array.  The handler returns 0; if [n]
    is less than one record the array is zeroed and the count is 0;
    otherwise the array starts with the first [n] stored bytes and the
    count is [n] divided by the size of a record, rounded down. *)
Theorem set_setting_id_stored :
  forall (A : Type) (read_cb : settings_read_cb A) (cb_arg : A)
         (data : list Z) (len_rd : nat) (w : world),
    reads_stored read_cb cb_arg data ->
    atomic_test_bit (bt_dev.flags (dev w)) BT_DEV_ENABLE = true ->
    atomic_test_bit (bt_dev.flags (dev w)) BT_DEV_PRESET_ID = false ->
    Z.of_nat (length (bt_dev.id_addr (dev w))) < 2 ^ SIZE_WIDTH ->
    (0 < SIZEOF_BT_ADDR_LE)%nat ->
    (length (bt_dev.id_addr (dev w)) / SIZEOF_BT_ADDR_LE < 256)%nat ->
    let n := Nat.min (length data) (length (bt_dev.id_addr (dev w))) in
    let r := set_setting (Some (cstr "id")) len_rd read_cb cb_arg w in
    fst r = 0
    /\ ((n < SIZEOF_BT_ADDR_LE)%nat ->
        bt_dev.id_count (dev (snd r)) = 0%N
        /\ bt_dev.id_addr (dev (snd r))
           = repeat 0 (length (bt_dev.id_addr (dev w))))
    /\ ((SIZEOF_BT_ADDR_LE <= n)%nat ->
        bt_dev.id_count (dev (snd r)) = N.of_nat (n / SIZEOF_BT_ADDR_LE)
        /\ bt_dev.id_addr (dev (snd r))
           = firstn n data ++ skipn n (bt_dev.id_addr (dev w))).
Proof.
  intros A read_cb cb_arg data len_rd w Hreader Hon Hpreset Hwidth Hsz
         Hmax n r.
  pose proof (Hreader (bt_dev.id_addr (dev w))
                (length (bt_dev.id_addr (dev w)))) as Hread.
  fold n in Hread.
  destruct (set_setting_id_read A len_rd read_cb cb_arg w _ _
              Hon Hpreset Hread ltac:(lia)) as [Hshort Hfull].
  cbv zeta in Hshort, Hfull.
  assert (Hdiv : Z.of_nat n / Z.of_nat SIZEOF_BT_ADDR_LE
                 = Z.of_nat (n / SIZEOF_BT_ADDR_LE))
    by (symmetry; apply Nat2Z.inj_div).
  assert (Hle : (n / SIZEOF_BT_ADDR_LE
                 <= length (bt_dev.id_addr (dev w)) / SIZEOF_BT_ADDR_LE)%nat)
    by (apply Nat.Div0.div_le_mono; lia).
  destruct (Nat.lt_ge_cases n SIZEOF_BT_ADDR_LE) as [Hlt | Hge].
  - unfold r. rewrite Hshort by lia. cbn [fst snd dev set_dev].
    split; [reflexivity |]. split; [| intros; lia].
    intros _. split; reflexivity.
  - unfold r. rewrite Hfull by (rewrite ?Hdiv; lia). cbn [fst snd dev set_dev].
    split; [reflexivity |]. split; [intros; lia |].
    intros _. split; [| reflexivity].
    cbn. rewrite Hdiv. lia.
Qed.

(** ** The branches for "irk" and "appearance" *)

(** The "irk" branch, whatever the reader returns. *)
Lemma set_setting_irk_branch :
  forall (A : Type) (len_rd : nat) (read_cb : settings_read_cb A)
         (cb_arg : A) (w : world) (L : Z) (buf : list Z),
    atomic_test_bit (bt_dev.flags (dev w)) BT_DEV_ENABLE = true ->
    CONFIG_BT_PRIVACY = true ->
    read_cb cb_arg (bt_dev.irk (dev w)) (length (bt_dev.irk (dev w)))
    = (L, buf) ->
    set_setting (Some (cstr "irk")) len_rd read_cb cb_arg w
    = (0, set_dev
            (called (Call_read_cb (length (bt_dev.irk (dev w)))) w)
            (bt_dev.set_irk (dev w)
               (if (to_size_t L <? 16) && negb (L <? 0)
                then repeat 0 (length (bt_dev.irk (dev w)))
                else buf))).
Proof.
  intros A len_rd read_cb cb_arg w L buf Hon Hcfg Hread.
  unfold set_setting. rewrite Hon, Hcfg. cbv beta zeta.
  change (settings_name_next (cstr "irk")) with 3%nat.
  change (strncmp (cstr "irk") (cstr "id") 3 =? 0) with false.
  change (strncmp (cstr "irk") (cstr "name") 3 =? 0) with false.
  change (strncmp (cstr "irk") (cstr "appearance") 3 =? 0) with false.
  change (strncmp (cstr "irk") (cstr "irk") 3 =? 0) with true.
  rewrite !andb_false_r. cbn [negb andb]. rewrite Hread.
  destruct (to_size_t L <? 16); destruct (L <? 0); reflexivity.
Qed.

(** X12: the "irk" branch, with privacy compiled in and the stack enabled.
    The reader is asked for the whole array and the handler returns 0.  A
    read of [L] bytes with [0 <= L < 16] zeroes the whole array; a read of
    16 bytes or more keeps what the reader stored; a read that fails also
    keeps the array as the reader left it.  The identity addresses, the
    identity count and the flags are not touched. *)
Theorem set_setting_irk_read :
  forall (A : Type) (len_rd : nat) (read_cb : settings_read_cb A)
         (cb_arg : A) (w : world) (L : Z) (buf : list Z),
    atomic_test_bit (bt_dev.flags (dev w)) BT_DEV_ENABLE = true ->
    CONFIG_BT_PRIVACY = true ->
    read_cb cb_arg (bt_dev.irk (dev w)) (length (bt_dev.irk (dev w)))
    = (L, buf) ->
    0 < SIZE_WIDTH -> 16 <= 2 ^ (SIZE_WIDTH - 1) ->
    - 2 ^ (SIZE_WIDTH - 1) <= L < 2 ^ SIZE_WIDTH ->
    set_setting (Some (cstr "irk")) len_rd read_cb cb_arg w
    = (0, set_dev
            (called (Call_read_cb (length (bt_dev.irk (dev w)))) w)
            (bt_dev.set_irk (dev w)
               (if (0 <=? L) && (L <? 16)
                then repeat 0 (length (bt_dev.irk (dev w)))
                else buf))).
Proof.
  intros A len_rd read_cb cb_arg w L buf Hon Hcfg Hread Hw H16 HL.
  rewrite (set_setting_irk_branch A len_rd read_cb cb_arg w L buf)
    by assumption.
  assert (Hpow : 2 ^ SIZE_WIDTH = 2 * 2 ^ (SIZE_WIDTH - 1)).
  { replace SIZE_WIDTH with (Z.succ (SIZE_WIDTH - 1)) at 1 by lia.
    apply Z.pow_succ_r. lia. }
  destruct (Z.ltb_spec L 0) as [Hneg | Hpos].
  - assert (Hle : (0 <=? L) = false) by (apply Z.leb_gt; lia).
    rewrite Hle. now rewrite andb_false_r.
  - unfold to_size_t. rewrite Z.mod_small by lia.
    assert (Hle : (0 <=? L) = true) by (apply Z.leb_le; lia).
    rewrite Hle. now rewrite andb_true_r.
Qed.

(** X13: the "appearance" branch on a payload of the right size, with the
    field compiled in and the stack enabled: the reader is asked for the
    size of the field once, the field holds what the reader stored, and
    the return value is the reader's result when that is negative and 0
    otherwise. *)
Theorem set_setting_appearance_read :
  forall (A : Type) (read_cb : settings_read_cb A) (cb_arg : A)
         (w : world) (L : Z) (buf : list Z),
    atomic_test_bit (bt_dev.flags (dev w)) BT_DEV_ENABLE = true ->
    CONFIG_BT_DEVICE_APPEARANCE_DYNAMIC = true ->
    read_cb cb_arg (bt_dev.appearance (dev w))
            (length (bt_dev.appearance (dev w)))
    = (L, buf) ->
    set_setting (Some (cstr "appearance"))
                (length (bt_dev.appearance (dev w))) read_cb cb_arg w
    = (Z.min L 0,
       set_dev
         (called (Call_read_cb (length (bt_dev.appearance (dev w)))) w)
         (bt_dev.set_appearance (dev w) buf)).
Proof.
  intros A read_cb cb_arg w L buf Hon Hcfg Hread.
  unfold set_setting. rewrite Hon, Hcfg. cbv beta zeta.
  change (settings_name_next (cstr "appearance")) with 10%nat.
  change (strncmp (cstr "appearance") (cstr "id") 10 =? 0) with false.
  change (strncmp (cstr "appearance") (cstr "name") 10 =? 0) with false.
  change (strncmp (cstr "appearance") (cstr "appearance") 10 =? 0) with true.
  rewrite andb_false_r, Nat.eqb_refl. cbn [negb andb]. rewrite Hread.
  destruct (Z.ltb_spec L 0); f_equal; lia.
Qed.

(** ** What the restore handler never does *)

Ltac split_handler :=
  repeat match goal with
         | |- context [match ?x with Some _ => _ | None => _ end] =>
             destruct x
         | |- context [if ?b then _ else _] => destruct b
         | |- context [let (_, _) := ?p in _] => destruct p
         end.

(** X14: for every name, length, reader and state, the restore handler
    leaves the flag word and the pending save work alone, and the calls
    it adds are at most one call of the value reader. *)
Theorem set_setting_frame :
  forall (A : Type) (name : option (list Z)) (len_rd : nat)
         (read_cb : settings_read_cb A) (cb_arg : A) (w : world),
    bt_dev.flags (dev (snd (set_setting name len_rd read_cb cb_arg w)))
    = bt_dev.flags (dev w)
    /\ save_id_work (snd (set_setting name len_rd read_cb cb_arg w))
       = save_id_work w
    /\ (calls (snd (set_setting name len_rd read_cb cb_arg w)) = calls w
        \/ exists n,
             calls (snd (set_setting name len_rd read_cb cb_arg w))
             = Call_read_cb n :: calls w).
Proof.
  intros A name len_rd read_cb cb_arg w. unfold set_setting.
  split_handler; cbn; repeat split; eauto.
Qed.

(** X15: the handler keeps the sizes of the fields.  If the value reader,
    asked for no more bytes than the destination has, gives back a
    destination of the size it was given, then after the
    handler the identity array, the name buffer, the appearance and the
    key array have the sizes they had. *)
Theorem set_setting_sizes :
  forall (A : Type) (name : option (list Z)) (len_rd : nat)
         (read_cb : settings_read_cb A) (cb_arg : A) (w : world),
    (forall buf n, (n <= length buf)%nat ->
                   length (snd (read_cb cb_arg buf n)) = length buf) ->
    let d' := dev (snd (set_setting name len_rd read_cb cb_arg w)) in
    length (bt_dev.id_addr d') = length (bt_dev.id_addr (dev w))
    /\ length (bt_dev.name d') = length (bt_dev.name (dev w))
    /\ length (bt_dev.appearance d') = length (bt_dev.appearance (dev w))
    /\ length (bt_dev.irk d') = length (bt_dev.irk (dev w)).
Proof.
  intros A name len_rd read_cb cb_arg w Hreader. unfold set_setting.
  repeat match goal with
         | |- context [match ?x with Some _ => _ | None => _ end] =>
             destruct x
         | |- context [if ?b then _ else _] => destruct b
         | |- context [let (_, _) := read_cb cb_arg ?b ?n in _] =>
             let H := fresh "Hlen" in
             pose proof (Hreader b n ltac:(lia)) as H;
             destruct (read_cb cb_arg b n)
         end;
    cbn in *; rewrite ?store_length, ?repeat_length; auto.
Qed.

(** ** The load pass before [bt_enable()] *)

(** X16: a load pass over any number of keys while the stack-enabled flag
    is clear records 0 for every key and leaves the world as it was. *)
Theorem settings_load_before_enable :
  forall (A : Type) (entries : list (entry A)) (w : world),
    atomic_test_bit (bt_dev.flags (dev w)) BT_DEV_ENABLE = false ->
    settings_load entries w = (repeat 0 (length entries), w).
Proof.
  intros A entries w Hoff.
  induction entries as [| e entries IH]; [reflexivity |].
  cbn [settings_load length repeat].
  unfold set_setting at 1. rewrite Hoff. cbn [negb].
  now rewrite IH.
Qed.

End HostFurther.

Section CommitFurther.
Context {target : Target} {hci : HciCore}.

(** ** The commit handler and the flags *)

Lemma clearbit_of_clear :
  forall f n, 0 <= n -> Z.testbit f n = false -> Z.clearbit f n = f.
Proof.
  intros f n Hn Hbit. apply Z.bits_inj'. intros m Hm.
  rewrite Z.clearbit_eqb.
  destruct (Z.eqb_spec n m) as [-> | Hne]; cbn [negb].
  - now rewrite Hbit.
  - apply andb_true_r.
Qed.

Lemma set_dev_same :
  forall w, set_dev w (bt_dev.set_flags (dev w) (bt_dev.flags (dev w))) = w.
Proof. now intros [[] ? ?]. Qed.

(** On a settled state the commit handler returns 0 and changes nothing:
    no collaborator is called, no flag is written and the save work is
    not submitted. *)
Lemma commit_settings_settled :
  forall w : world, settled w -> commit_settings w = (0, w).
Proof.
  intros w (Hon & Hready & Hstore & Hcount & Hname).
  unfold commit_settings. rewrite Hon. cbn [negb].
  assert (Hskip : commit_name w = w).
  { unfold commit_name. destruct Hname as [-> | Hname]; [reflexivity |].
    apply Z.eqb_neq in Hname. rewrite Hname. now rewrite andb_false_r. }
  rewrite Hskip. apply N.eqb_neq in Hcount.
  unfold commit_public_id. rewrite Hcount.
  unfold commit_random_id. rewrite Hcount.
  unfold commit_finalize. rewrite Hready. cbn [negb].
  unfold commit_store_id, atomic_test_and_clear_bit.
  unfold atomic_test_bit in Hstore. rewrite Hstore.
  rewrite clearbit_of_clear by (assumption || lia).
  now rewrite set_dev_same.
Qed.

Lemma commit_store_id_flags :
  forall (w w' : world) (r : Z),
    commit_store_id w = (r, w') ->
    atomic_test_bit (bt_dev.flags (dev w')) BT_DEV_STORE_ID = false
    /\ (forall bit, bit <> BT_DEV_STORE_ID ->
                    atomic_test_bit (bt_dev.flags (dev w')) bit
                    = atomic_test_bit (bt_dev.flags (dev w)) bit)
    /\ save_id_work w'
       = save_id_work w
         || atomic_test_bit (bt_dev.flags (dev w)) BT_DEV_STORE_ID
    /\ (atomic_test_bit (bt_dev.flags (dev w)) BT_DEV_STORE_ID = true ->
        calls w' = Call_k_work_submit :: calls w).
Proof.
  intros w w' r. unfold commit_store_id, atomic_test_and_clear_bit,
    atomic_test_bit.
  assert (Hclr : Z.testbit (Z.clearbit (bt_dev.flags (dev w))
                              (Z.of_nat BT_DEV_STORE_ID))
                           (Z.of_nat BT_DEV_STORE_ID) = false)
    by (apply Z.clearbit_eq; lia).
  assert (Hother : forall bit, bit <> BT_DEV_STORE_ID ->
            Z.testbit (Z.clearbit (bt_dev.flags (dev w))
                         (Z.of_nat BT_DEV_STORE_ID)) (Z.of_nat bit)
            = Z.testbit (bt_dev.flags (dev w)) (Z.of_nat bit))
    by (intros bit Hne; apply Z.clearbit_neq; lia).
  destruct (Z.testbit (bt_dev.flags (dev w)) (Z.of_nat BT_DEV_STORE_ID));
    intros H; inversion H; subst; cbn;
    repeat split; auto using orb_true_r, orb_false_r; discriminate.
Qed.

Lemma commit_finalize_flags :
  forall (w w' : world) (r : Z),
    BT_DEV_READY <> BT_DEV_STORE_ID ->
    commit_finalize w = (r, w') ->
    atomic_test_bit (bt_dev.flags (dev w')) BT_DEV_READY = true
    /\ atomic_test_bit (bt_dev.flags (dev w')) BT_DEV_STORE_ID = false
    /\ save_id_work w'
       = save_id_work w
         || atomic_test_bit (bt_dev.flags (dev w)) BT_DEV_STORE_ID
    /\ (atomic_test_bit (bt_dev.flags (dev w)) BT_DEV_STORE_ID = true ->
        exists rest, calls w' = Call_k_work_submit :: rest).
Proof.
  intros w w' r Hne. unfold commit_finalize.
  destruct (atomic_test_bit (bt_dev.flags (dev w)) BT_DEV_READY) eqn:Hready;
    cbn [negb]; intros H;
    apply commit_store_id_flags in H;
    destruct H as (Hclr & Hother & Hwork & Hcall).
  - rewrite (Hother BT_DEV_READY Hne), Hready.
    repeat split; auto. intros Hs. eauto.
  - assert (Hset : atomic_test_bit
                     (bt_dev.flags (bt_finalize_init (dev w))) BT_DEV_READY
                   = true)
      by (unfold bt_finalize_init, atomic_test_bit, atomic_set_bit;
          cbn; apply Z.setbit_eq; lia).
    assert (Hkeep : atomic_test_bit
                      (bt_dev.flags (bt_finalize_init (dev w)))
                      BT_DEV_STORE_ID
                    = atomic_test_bit (bt_dev.flags (dev w)) BT_DEV_STORE_ID)
      by (unfold bt_finalize_init, atomic_test_bit, atomic_set_bit;
          cbn; apply Z.setbit_neq; lia).
    cbn [dev set_dev called save_id_work calls] in *.
    rewrite (Hother BT_DEV_READY Hne), Hset, Hkeep in *.
    repeat split; auto. intros Hs. eauto.
Qed.

Lemma commit_settings_reaches_finalize :
  forall (w w' : world),
    atomic_test_bit (bt_dev.flags (dev w)) BT_DEV_ENABLE = true ->
    commit_settings w = (0, w') ->
    exists w1, commit_finalize w1 = (0, w')
               /\ save_id_work w1 = save_id_work w.
Proof.
  intros w w' Hon. unfold commit_settings. rewrite Hon. cbn [negb].
  assert (Hname : save_id_work (commit_name w) = save_id_work w).
  { unfold commit_name, invoke.
    destruct (_ && _); [| reflexivity].
    now destruct (bt_set_name _ _). }
  rewrite <- Hname. generalize (commit_name w) as w0. clear.
  assert (Hrandom : forall w0,
             commit_random_id w0 = (0, w') ->
             exists w1, commit_finalize w1 = (0, w')
                        /\ save_id_work w1 = save_id_work w0).
  { intros w0. unfold commit_random_id, invoke.
    destruct (bt_dev.id_count (dev w0) =? 0)%N; [| eauto].
    destruct (bt_setup_random_id_addr (dev w0)) as [err d1].
    destruct (Z.eqb_spec err 0) as [-> | Herr]; cbn [negb].
    - eauto.
    - intros H. inversion H. congruence. }
  intros w0. unfold commit_public_id, invoke.
  destruct (bt_dev.id_count (dev w0) =? 0)%N; [| apply Hrandom].
  destruct (bt_setup_public_id_addr (dev w0)) as [err d1].
  destruct (Z.eqb_spec err 0) as [-> | Herr]; cbn [negb].
  - intros H. apply Hrandom in H. exact H.
  - intros H. inversion H. congruence.
Qed.

(** X17: with the stack enabled and distinct bits for [BT_DEV_READY] and
    [BT_DEV_STORE_ID], a commit that returns 0 leaves the stack marked
    ready and nothing marked for storage, and the save work is pending
    afterwards exactly when it was pending before or the identity was
    marked for storage when the handler came to look. *)
Theorem commit_settings_flags :
  forall (w w' : world),
    atomic_test_bit (bt_dev.flags (dev w)) BT_DEV_ENABLE = true ->
    BT_DEV_READY <> BT_DEV_STORE_ID ->
    commit_settings w = (0, w') ->
    atomic_test_bit (bt_dev.flags (dev w')) BT_DEV_READY = true
    /\ atomic_test_bit (bt_dev.flags (dev w')) BT_DEV_STORE_ID = false
    /\ (save_id_work w = true -> save_id_work w' = true)
    /\ (save_id_work w' = true ->
        save_id_work w = true
        \/ exists rest, calls w' = Call_k_work_submit :: rest).
Proof.
  intros w w' Hon Hne Hret.
  destruct (commit_settings_reaches_finalize w w' Hon Hret)
    as (w1 & Hfin & Hwork1).
  destruct (commit_finalize_flags w1 w' 0 Hne Hfin)
    as (Hready & Hstore & Hwork & Hcall).
  rewrite Hwork1 in Hwork. repeat split; auto.
  - intros Hp. rewrite Hwork, Hp. reflexivity.
  - intros Hp. rewrite Hwork in Hp. apply orb_true_iff in Hp.
    destruct Hp as [Hp | Hp]; [now left | right; auto].
Qed.

(** X18: a second commit does nothing.  After a commit that returned 0, if
    the stack is still enabled, has an identity, and has a name (when the
    name is dynamic), committing again returns 0 and leaves the world as
    the first commit left it: the save work is not submitted a second
    time. *)
Theorem commit_settings_twice :
  forall (w w' : world),
    atomic_test_bit (bt_dev.flags (dev w)) BT_DEV_ENABLE = true ->
    BT_DEV_READY <> BT_DEV_STORE_ID ->
    commit_settings w = (0, w') ->
    atomic_test_bit (bt_dev.flags (dev w')) BT_DEV_ENABLE = true ->
    bt_dev.id_count (dev w') <> 0%N ->
    CONFIG_BT_DEVICE_NAME_DYNAMIC = false
    \/ load (bt_dev.name (dev w')) 0 <> 0 ->
    commit_settings w' = (0, w').
Proof.
  intros w w' Hon Hne Hret Hon' Hcount Hname.
  destruct (commit_settings_reaches_finalize w w' Hon Hret)
    as (w1 & Hfin & _).
  destruct (commit_finalize_flags w1 w' 0 Hne Hfin)
    as (Hready & Hstore & _).
  apply commit_settings_settled. now repeat split.
Qed.


End CommitFurther.

Section SaveFurther.
Context {target : Target}.

(** ** Saving and restoring the identities *)

(** X20: what [save_id] writes under "bt/id" restores the identities.  Let
    [d] be a device whose identity count fits its array, and let the
    value reader be bound to the bytes [save_id] hands over for "bt/id".
    On an enabled device without preset identities and with an array of
    the same size, the key "id" then returns 0, sets the identity count to
    that of [d] and the first [id_count] address records to those of
    [d]. *)
Theorem save_id_restore_id :
  forall (A : Type) (read_cb : settings_read_cb A) (cb_arg : A)
         (d : bt_dev.t) (c : save_one) (len_rd : nat) (w : world),
    In c (save_id d) -> save_name c = cstr "bt/id" ->
    reads_stored read_cb cb_arg (save_value c) ->
    (ID_DATA_LEN d SIZEOF_BT_ADDR_LE <= length (bt_dev.id_addr d))%nat ->
    (bt_dev.id_count d < 256)%N ->
    (0 < SIZEOF_BT_ADDR_LE)%nat ->
    Z.of_nat (length (bt_dev.id_addr d)) < 2 ^ SIZE_WIDTH ->
    atomic_test_bit (bt_dev.flags (dev w)) BT_DEV_ENABLE = true ->
    atomic_test_bit (bt_dev.flags (dev w)) BT_DEV_PRESET_ID = false ->
    length (bt_dev.id_addr (dev w)) = length (bt_dev.id_addr d) ->
    let r := set_setting (Some (cstr "id")) len_rd read_cb cb_arg w in
    fst r = 0
    /\ bt_dev.id_count (dev (snd r)) = bt_dev.id_count d
    /\ firstn (ID_DATA_LEN d SIZEOF_BT_ADDR_LE) (bt_dev.id_addr (dev (snd r)))
       = firstn (ID_DATA_LEN d SIZEOF_BT_ADDR_LE) (bt_dev.id_addr d).
Proof.
  intros A read_cb cb_arg d c len_rd w Hin Hname Hreader Hfit Hcount Hsz
         Hwidth Hon Hpreset Hsame r.
  set (n := ID_DATA_LEN d SIZEOF_BT_ADDR_LE) in *.
  assert (Hval : save_value c = firstn n (bt_dev.id_addr d)).
  { unfold save_id in Hin. cbn [In] in Hin.
    destruct Hin as [<- | Hin]; [reflexivity |].
    destruct CONFIG_BT_PRIVACY; cbn [In] in Hin; [| contradiction].
    destruct Hin as [<- | []]. discriminate Hname. }
  assert (Hlen : length (save_value c) = n)
    by (rewrite Hval, length_firstn; lia).
  pose proof (Hreader (bt_dev.id_addr (dev w))
                (length (bt_dev.id_addr (dev w)))) as Hread.
  rewrite Hlen in Hread.
  replace (Nat.min n (length (bt_dev.id_addr (dev w)))) with n in Hread
    by lia.
  rewrite firstn_all2 in Hread by lia.
  destruct (set_setting_id_read A len_rd read_cb cb_arg w _ _
              Hon Hpreset Hread ltac:(lia)) as [Hshort Hfull].
  cbv zeta in Hshort, Hfull.
  destruct (N.eq_dec (bt_dev.id_count d) 0) as [Hzero | Hsome].
  - assert (Hn : n = O) by (unfold n, ID_DATA_LEN; rewrite Hzero; reflexivity).
    unfold r. rewrite Hshort by lia. cbn. rewrite Hn, Hzero. auto.
  - assert (Hn : Z.of_nat n
                 = Z.of_N (bt_dev.id_count d) * Z.of_nat SIZEOF_BT_ADDR_LE)
      by (unfold n, ID_DATA_LEN; lia).
    assert (Hdiv : Z.of_nat n / Z.of_nat SIZEOF_BT_ADDR_LE
                   = Z.of_N (bt_dev.id_count d))
      by (rewrite Hn; apply Z.div_mul; lia).
    unfold r. rewrite Hfull by (rewrite ?Hdiv; nia).
    cbn. rewrite Hdiv, N2Z.id. repeat split.
    rewrite firstn_app_exact by (symmetry; exact Hlen).
    exact Hval.
Qed.

(** X21: what [save_id] writes under "bt/irk" restores the keys.  With
    privacy compiled in, let [d] be a device whose identity count fits its
    key array and let the value reader be bound to the bytes [save_id]
    hands over for "bt/irk".  On an enabled device with a key array of
    the same size, the key "irk" then returns 0 and sets the first
    [id_count] keys to those of [d]; the identity addresses and the
    identity count are not touched. *)
Theorem save_id_restore_irk :
  forall (A : Type) (read_cb : settings_read_cb A) (cb_arg : A)
         (d : bt_dev.t) (c : save_one) (len_rd : nat) (w : world),
    CONFIG_BT_PRIVACY = true ->
    In c (save_id d) -> save_name c = cstr "bt/irk" ->
    reads_stored read_cb cb_arg (save_value c) ->
    (ID_DATA_LEN d 16 <= length (bt_dev.irk d))%nat ->
    Z.of_nat (length (bt_dev.irk d)) < 2 ^ SIZE_WIDTH ->
    atomic_test_bit (bt_dev.flags (dev w)) BT_DEV_ENABLE = true ->
    length (bt_dev.irk (dev w)) = length (bt_dev.irk d) ->
    let r := set_setting (Some (cstr "irk")) len_rd read_cb cb_arg w in
    fst r = 0
    /\ firstn (ID_DATA_LEN d 16) (bt_dev.irk (dev (snd r)))
       = firstn (ID_DATA_LEN d 16) (bt_dev.irk d)
    /\ bt_dev.id_count (dev (snd r)) = bt_dev.id_count (dev w)
    /\ bt_dev.id_addr (dev (snd r)) = bt_dev.id_addr (dev w).
Proof.
  intros A read_cb cb_arg d c len_rd w Hcfg Hin Hname Hreader Hfit Hwidth
         Hon Hsame r.
  set (n := ID_DATA_LEN d 16) in *.
  assert (Hval : save_value c = firstn n (bt_dev.irk d)).
  { unfold save_id in Hin. rewrite Hcfg in Hin. cbn [In] in Hin.
    destruct Hin as [<- | [<- | []]]; [discriminate Hname | reflexivity]. }
  assert (Hlen : length (save_value c) = n)
    by (rewrite Hval, length_firstn; lia).
  pose proof (Hreader (bt_dev.irk (dev w))
                (length (bt_dev.irk (dev w)))) as Hread.
  rewrite Hlen in Hread.
  replace (Nat.min n (length (bt_dev.irk (dev w)))) with n in Hread by lia.
  rewrite firstn_all2 in Hread by lia.
  unfold r.
  rewrite (set_setting_irk_branch A len_rd read_cb cb_arg w _ _
             Hon Hcfg Hread).
  cbn [fst snd dev set_dev bt_dev.set_irk bt_dev.irk bt_dev.id_count
       bt_dev.id_addr].
  repeat split.
  unfold to_size_t. rewrite Z.mod_small by lia.
  assert (Hpos : (Z.of_nat n <? 0) = false) by (apply Z.ltb_ge; lia).
  rewrite Hpos, andb_true_r.
  destruct (Z.ltb_spec (Z.of_nat n) 16) as [Hshort | Hfull].
  - assert (Hn : n = O) by (unfold n, ID_DATA_LEN in *; lia).
    now rewrite Hn.
  - rewrite firstn_app_exact by (symmetry; exact Hlen). exact Hval.
Qed.

End SaveFurther.

(** * The further properties on concrete inputs *)

(** ** Key codec *)

(** The bounds at the capacity that cuts the address. *)
Lemma bt_settings_encode_key_bounded_witness :
  Nat.lt
    (strlen (bt_settings_encode_key (repeat 255 12) 9 (cstr "s")
               {| type := 0; a := {| val := repeat 255 6 |} |} None)) 9
  /\ skipn 9 (bt_settings_encode_key (repeat 255 12) 9 (cstr "s")
                {| type := 0; a := {| val := repeat 255 6 |} |} None)
     = [255; 255; 255].
Proof.
  pose proof (bt_settings_encode_key_bounded (repeat 255 12) 9 (cstr "s")
                {| type := 0; a := {| val := repeat 255 6 |} |} None
                ltac:(cbn; lia)) as (_ & Hbehind & Hstr).
  split; [apply Hstr; lia | exact Hbehind].
Defined.

Lemma bt_settings_encode_key_exact_witness :
  c_str (bt_settings_encode_key (repeat 255 40) 32 (cstr "keys")
           {| type := 1; a := {| val := [160; 10; 128; 127; 0; 255] |} |}
           (Some (cstr "leaf")))
  = spec_key_text (cstr "keys")
      {| type := 1; a := {| val := [160; 10; 128; 127; 0; 255] |} |}
      (Some (cstr "leaf")).
Proof.
  refine (proj1 (bt_settings_encode_key_exact (repeat 255 40) 32
                   (cstr "keys")
                   {| type := 1;
                      a := {| val := [160; 10; 128; 127; 0; 255] |} |}
                   (Some (cstr "leaf")) eq_refl _ _ _ _)).
  - repeat constructor; cbn; lia.
  - right. reflexivity.
  - cbn. lia.
  - cbn. lia.
Defined.

(** The build with [snprintk] at the capacity where the other build
    leaves "bt/s/ff0". *)
Lemma bt_settings_encode_key_printk_prefix_witness :
  c_str (bt_settings_encode_key_printk (repeat 255 9) 9 (cstr "s")
           {| type := 0; a := {| val := repeat 255 6 |} |} None)
  = firstn 8 (spec_key_text (cstr "s")
                {| type := 0; a := {| val := repeat 255 6 |} |} None).
Proof.
  refine (proj1 (bt_settings_encode_key_printk_prefix (repeat 255 9) 9
                   (cstr "s")
                   {| type := 0; a := {| val := repeat 255 6 |} |} None
                   eq_refl _ _ _)).
  - repeat constructor; cbn; lia.
  - left. reflexivity.
  - cbn. lia.
Defined.

Lemma bt_settings_encode_key_builds_agree_witness :
  c_str (bt_settings_encode_key_printk (repeat 255 32) 32 (cstr "keys")
           {| type := 1; a := {| val := [160; 10; 128; 127; 0; 255] |} |}
           (Some (cstr "leaf")))
  = c_str (bt_settings_encode_key (repeat 0 40) 32 (cstr "keys")
             {| type := 1; a := {| val := [160; 10; 128; 127; 0; 255] |} |}
             (Some (cstr "leaf"))).
Proof.
  apply bt_settings_encode_key_builds_agree.
  - reflexivity.
  - repeat constructor; cbn; lia.
  - right. reflexivity.
  - cbn. lia.
  - cbn. lia.
  - cbn. lia.
Defined.

(** The same address encoded twice, with different leaf-free buffers. *)
Lemma bt_settings_encode_key_injective_witness :
  {| type := 1; a := {| val := [160; 10; 128; 127; 0; 255] |} |}
  = {| type := 1; a := {| val := [160; 10; 128; 127; 0; 255] |} |}.
Proof.
  apply (bt_settings_encode_key_injective (repeat 255 40) (repeat 0 32)
           40 32 (cstr "keys") _ _ None None).
  - reflexivity.
  - reflexivity.
  - repeat constructor; cbn; lia.
  - repeat constructor; cbn; lia.
  - right. reflexivity.
  - right. reflexivity.
  - cbn. lia.
  - cbn. lia.
  - reflexivity.
Defined.

(** A key suffix with a leaf decodes as its address part. *)
Lemma bt_settings_decode_key_segment_witness :
  bt_settings_decode_key (cstr "0605040302010/leaf")
    {| type := 7; a := {| val := repeat 9 6 |} |}
  = bt_settings_decode_key (firstn 13 (cstr "0605040302010/leaf"))
      {| type := 7; a := {| val := repeat 9 6 |} |}.
Proof.
  apply bt_settings_decode_key_segment. reflexivity.
Defined.

(** ** Restore handler *)

Lemma set_setting_first_segment_witness :
  set_setting (target := target_ilp32)
    (Some (cstr "id" ++ char_of "/" :: cstr "0"))
    7 read_stored [1; 1; 2; 3; 4; 5; 6] (world_of dev_enabled)
  = set_setting (target := target_ilp32) (Some (cstr "id"))
      7 read_stored [1; 1; 2; 3; 4; 5; 6] (world_of dev_enabled).
Proof.
  apply (set_setting_first_segment (target := target_ilp32)).
  repeat constructor; discriminate.
Defined.

Lemma set_setting_not_found_witness :
  set_setting (target := target_ilp32) (Some (cstr "keys"))
    7 read_stored [1; 1; 2; 3; 4; 5; 6] (world_of dev_enabled)
  = (- ENOENT, world_of dev_enabled).
Proof.
  apply (set_setting_not_found (target := target_ilp32)).
  - reflexivity.
  - intros nm lit [= <-] Hin. cbn [In known_names] in Hin.
    destruct Hin as [<- | [<- | [<- | [<- | []]]]]; discriminate.
Defined.

Lemma set_setting_id_preset_witness :
  set_setting (target := target_ilp32) (Some (cstr "id"))
    7 read_stored [1; 1; 2; 3; 4; 5; 6] (world_of dev_preset_id)
  = (0, world_of dev_preset_id).
Proof.
  apply (set_setting_id_preset (target := target_ilp32));
    reflexivity.
Defined.

(** Ten stored bytes, one record and a half: count 1. *)
Lemma set_setting_id_stored_witness :
  bt_dev.id_count
    (dev (snd (set_setting (target := target_ilp32) (Some (cstr "id")) 10
                 read_stored [1; 1; 2; 3; 4; 5; 6; 0; 7; 8]
                 (world_of dev_enabled))))
  = N.of_nat (10 / 7).
Proof.
  refine (proj1 (proj2 (proj2
            (set_setting_id_stored (target := target_ilp32)
               (list Z) read_stored [1; 1; 2; 3; 4; 5; 6; 0; 7; 8]
               [1; 1; 2; 3; 4; 5; 6; 0; 7; 8] 10 (world_of dev_enabled)
               _ eq_refl eq_refl _ _ _)) _)).
  - intros buf len. reflexivity.
  - cbn. lia.
  - cbn. lia.
  - cbn. lia.
  - cbn. lia.
Defined.

(** Fifteen stored bytes, less than one key: the key array is zeroed. *)
Lemma set_setting_irk_read_witness :
  set_setting (target := target_ilp32) (Some (cstr "irk")) 15
    read_stored (repeat 1 15) (world_of dev_with_identity)
  = (0, set_dev
          (called (Call_read_cb 32) (world_of dev_with_identity))
          (bt_dev.set_irk dev_with_identity (repeat 0 32))).
Proof.
  apply (set_setting_irk_read (target := target_ilp32) (list Z) 15
           read_stored (repeat 1 15) (world_of dev_with_identity) 15
           (repeat 1 15 ++ skipn 15 (bt_dev.irk dev_with_identity))).
  - reflexivity.
  - reflexivity.
  - reflexivity.
  - cbn. lia.
  - cbn. lia.
  - cbn. lia.
Defined.

Lemma set_setting_appearance_read_witness :
  set_setting (target := target_ilp32) (Some (cstr "appearance")) 2
    read_stored [65; 3] (world_of dev_enabled)
  = (0, set_dev (called (Call_read_cb 2) (world_of dev_enabled))
          (bt_dev.set_appearance dev_enabled [65; 3])).
Proof.
  apply (set_setting_appearance_read (target := target_ilp32) (list Z)
           read_stored [65; 3] (world_of dev_enabled) 2 [65; 3]);
    reflexivity.
Defined.

Lemma set_setting_sizes_witness :
  length (bt_dev.name
            (dev (snd (set_setting (target := target_ilp32)
                         (Some (cstr "name")) 3 read_stored [65; 66; 67]
                         (world_of dev_enabled)))))
  = length (bt_dev.name dev_enabled).
Proof.
  refine (proj1 (proj2
            (set_setting_sizes (target := target_ilp32) (list Z)
               (Some (cstr "name")) 3 read_stored [65; 66; 67]
               (world_of dev_enabled) _))).
  intros buf n Hn. cbn [read_stored snd].
  rewrite length_app, length_firstn, length_skipn. cbn [length]. lia.
Defined.

Lemma settings_load_before_enable_witness :
  settings_load (target := target_ilp32)
    [ {| entry_name := cstr "id"; entry_len := 7%nat;
         entry_read_cb := read_stored;
         entry_cb_arg := [1; 1; 2; 3; 4; 5; 6] |};
      {| entry_name := cstr "name"; entry_len := 3%nat;
         entry_read_cb := read_stored;
         entry_cb_arg := [65; 66; 67] |} ]
    (world_of dev_disabled)
  = ([0; 0], world_of dev_disabled).
Proof.
  apply (settings_load_before_enable (target := target_ilp32)).
  reflexivity.
Defined.

(** ** Commit handler *)

Lemma commit_settings_flags_witness :
  atomic_test_bit
    (bt_dev.flags
       (dev (snd (commit_settings (target := target_ilp32)
                    (hci := hci_random_only) (world_of dev_enabled)))))
    2
  = true.
Proof.
  refine (proj1 (commit_settings_flags (target := target_ilp32)
                   (hci := hci_random_only) (world_of dev_enabled) _
                   eq_refl _ _)).
  - cbn. lia.
  - reflexivity.
Defined.

(** The first commit generates a random identity and submits the save;
    the second one changes nothing. *)
Lemma commit_settings_twice_witness :
  commit_settings (target := target_ilp32) (hci := hci_random_only)
    (snd (commit_settings (target := target_ilp32)
            (hci := hci_random_only) (world_of dev_enabled)))
  = (0, snd (commit_settings (target := target_ilp32)
               (hci := hci_random_only) (world_of dev_enabled))).
Proof.
  apply (commit_settings_twice (target := target_ilp32)
           (hci := hci_random_only) (world_of dev_enabled)).
  - reflexivity.
  - cbn. lia.
  - reflexivity.
  - reflexivity.
  - cbn. discriminate.
  - right. cbn. discriminate.
Defined.


(** ** Save and restore *)

Lemma save_id_restore_id_witness :
  bt_dev.id_count
    (dev (snd (set_setting (target := target_ilp32) (Some (cstr "id")) 7
                 read_stored [1; 17; 34; 51; 68; 85; 102]
                 (world_of dev_enabled))))
  = bt_dev.id_count dev_with_identity.
Proof.
  refine (proj1 (proj2
            (save_id_restore_id (target := target_ilp32) (list Z)
               read_stored [1; 17; 34; 51; 68; 85; 102] dev_with_identity
               {| save_name := cstr "bt/id";
                  save_value := [1; 17; 34; 51; 68; 85; 102] |}
               7 (world_of dev_enabled)
               _ eq_refl _ _ _ _ _ eq_refl eq_refl eq_refl))).
  - left. reflexivity.
  - intros buf len. reflexivity.
  - cbn. lia.
  - cbn. lia.
  - cbn. lia.
  - cbn. lia.
Defined.

Lemma save_id_restore_irk_witness :
  firstn 16
    (bt_dev.irk
       (dev (snd (set_setting (target := target_ilp32) (Some (cstr "irk")) 16
                    read_stored (map Z.of_nat (seq 1 16))
                    (world_of dev_enabled)))))
  = firstn 16 (bt_dev.irk dev_with_identity).
Proof.
  refine (proj1 (proj2
            (save_id_restore_irk (target := target_ilp32) (list Z)
               read_stored (map Z.of_nat (seq 1 16)) dev_with_identity
               {| save_name := cstr "bt/irk";
                  save_value := map Z.of_nat (seq 1 16) |}
               16 (world_of dev_enabled)
               eq_refl _ eq_refl _ _ _ eq_refl eq_refl))).
  - right. left. reflexivity.
  - intros buf len. reflexivity.
  - cbn. lia.
  - cbn. lia.
Defined.
